(** * jsonapi response marshaling: a shallow embedding of [response.go]

    The development follows the Go source function by function:
    [visitModelNode] (the reflective traversal of one annotated struct),
    [marshalOne], [marshalMany] and [MarshalOnePayloadEmbedded].

    Conventions of the embedding.
    - A Go call returns normally, returns a non-nil [error], or panics; the
      three are the constructors of [outcome].
    - The [included] registry is the map behind a [*map[string]*Node]; it is
      threaded through the traversal as explicit state ([None] is the nil
      pointer handed over by the embedded entry point).
    - A struct value is the list of its fields in declaration order, each with
      its [jsonapi] tag and a value drawn from the field types listed at
      [FieldValue].  Field types are predeclared Go types, pointers to them,
      [time.Time], [*time.Time], pointers to annotated structs and slices of
      such pointers; defined types with another name and cyclic object graphs
      are not represented.
    - Go maps are [gmap]s, a nil map is [None]. *)

From Stdlib Require Import ZArith Lia Ascii String.
From stdpp Require Import base strings list gmap fin_maps pretty.

Local Open Scope string_scope.
Local Open Scope Z_scope.

(** ** Outcomes of a Go call *)

Inductive error : Type :=
| ErrBadJSONAPIStructTag
| ErrBadJSONAPIID
| ErrExpectedSlice
| ErrUnexpectedType
| ErrInvalidLink.

Inductive outcome (A : Type) : Type :=
| Ret (a : A)
| Fail (e : error)
| Panic.
Arguments Ret {A} a.
Arguments Fail {A} e.
Arguments Panic {A}.

Global Instance outcome_ret : MRet outcome := λ A a, Ret a.

Global Instance outcome_bind : MBind outcome := λ A B k c,
  match c with
  | Ret a => k a
  | Fail e => Fail e
  | Panic => Panic
  end.

(** ** Fixed-width integers *)

(** The value of a [w]-bit two's complement integer stored as [z]. *)
Definition asSigned (w z : Z) : Z :=
  (z + 2 ^ (w - 1)) `mod` 2 ^ w - 2 ^ (w - 1).

(** The value of a [w]-bit unsigned integer stored as [z]. *)
Definition asUnsigned (w z : Z) : Z := z `mod` 2 ^ w.

(** [strconv.FormatInt(i, 10)] and [strconv.FormatUint(u, 10)]. *)
Definition FormatInt (i : Z) : string := pretty (asSigned 64 i).
Definition FormatUint (u : Z) : string := pretty (asUnsigned 64 u).

(** ** [strings.Split] with a one-character separator *)

Fixpoint splitGo (sep : Ascii.ascii) (s : string) (cur : string) : list string :=
  match s with
  | EmptyString => [String.rev cur]
  | String c rest =>
      if Ascii.eqb c sep then String.rev cur :: splitGo sep rest EmptyString
      else splitGo sep rest (String c cur)
  end.

Definition Split (s : string) (sep : Ascii.ascii) : list string :=
  splitGo sep s EmptyString.

(** ** [time.Time]

    A time is an instant (seconds since January 1 of year 1, 00:00:00 UTC,
    plus nanoseconds) and the offset of its location east of UTC, in
    seconds. *)

Record Time : Type := MkTime { sec : Z; nsec : Z; zoneOffset : Z }.

Definition internalToUnix : Z := -62135596800.

(** [t.IsZero()] *)
Definition IsZero (t : Time) : bool := (sec t =? 0) && (nsec t =? 0).

(** [t.UTC()] *)
Definition UTC (t : Time) : Time :=
  {| sec := sec t; nsec := nsec t; zoneOffset := 0 |}.

(** [t.Unix()], an [int64]. *)
Definition Unix (t : Time) : Z := asSigned 64 (sec t + internalToUnix).

(** Civil date of a day number counted from January 1 of year 1 (day 0), in
    the proleptic Gregorian calendar. *)
Definition civil (days : Z) : Z * Z * Z :=
  let z := days + 306 in
  let era := z `div` 146097 in
  let doe := z - era * 146097 in
  let yoe :=
    (doe - doe `div` 1460 + doe `div` 36524 - doe `div` 146096) `div` 365 in
  let doy := doe - (365 * yoe + yoe `div` 4 - yoe `div` 100) in
  let mp := (5 * doy + 2) `div` 153 in
  let d := doy - (153 * mp + 2) `div` 5 + 1 in
  let m := if mp <? 10 then mp + 3 else mp - 9 in
  let y := yoe + era * 400 + (if m <=? 2 then 1 else 0) in
  (y, m, d).

(** [appendInt]: decimal digits of [x], zero-padded to [width], with a
    leading minus sign for negative numbers. *)
Fixpoint zeros (n : nat) : string :=
  match n with O => EmptyString | S n' => "0" +:+ zeros n' end.

Definition appendInt (x : Z) (width : nat) : string :=
  let digits : string := pretty (Z.abs x) in
  (if x <? 0 then "-" else EmptyString)
    +:+ zeros (width - String.length digits) +:+ digits.

Definition localSeconds (t : Time) : Z := sec t + zoneOffset t.

Definition zoneString (t : Time) : string :=
  let off := zoneOffset t `quot` 60 in
  if off =? 0 then "Z"
  else (if off <? 0 then "-" else "+")
         +:+ appendInt (Z.abs off `quot` 60) 2 +:+ ":"
         +:+ appendInt (Z.abs off `rem` 60) 2.

(** [t.Format(layout)] for layouts built from the reference-time elements
    [2006], [01], [02], [15], [04], [05] and [Z07:00]; every other character
    of the layout is copied. *)
Fixpoint Format (t : Time) (layout : string) : string :=
  let secs := localSeconds t in
  let '(y, m, d) := civil (secs `div` 86400) in
  let tod := secs `mod` 86400 in
  match layout with
  | String "2"%char
      (String "0"%char (String "0"%char (String "6"%char rest))) =>
      appendInt y 4 +:+ Format t rest
  | String "0"%char (String "1"%char rest) => appendInt m 2 +:+ Format t rest
  | String "0"%char (String "2"%char rest) => appendInt d 2 +:+ Format t rest
  | String "1"%char (String "5"%char rest) =>
      appendInt (tod `div` 3600) 2 +:+ Format t rest
  | String "0"%char (String "4"%char rest) =>
      appendInt ((tod `mod` 3600) `div` 60) 2 +:+ Format t rest
  | String "0"%char (String "5"%char rest) =>
      appendInt (tod `mod` 60) 2 +:+ Format t rest
  | String "Z"%char
      (String "0"%char
         (String "7"%char
            (String ":"%char (String "0"%char (String "0"%char rest))))) =>
      zoneString t +:+ Format t rest
  | String c rest => String c (Format t rest)
  | EmptyString => EmptyString
  end.

(** [time.RFC3339] *)
Definition RFC3339 : string := "2006-01-02T15:04:05Z07:00".

(** ** Reflection: kinds and field values *)

Module reflect.
Inductive Kind : Type :=
| Bool
| Int | Int8 | Int16 | Int32 | Int64
| Uint | Uint8 | Uint16 | Uint32 | Uint64
| Float32 | Float64
| String
| Struct | Ptr | Slice.
End reflect.

Global Instance Kind_eq_dec : EqDecision reflect.Kind.
Proof. solve_decision. Defined.

(** Width of the machine-dependent [int] and [uint]. *)
Definition intSize : Z := 64.

(** Values of the predeclared types.  Integers carry their value as a [Z],
    floating-point numbers their IEEE bit pattern. *)
Inductive Basic : Type :=
| VBool (b : bool)
| VInt (z : Z) | VInt8 (z : Z) | VInt16 (z : Z) | VInt32 (z : Z) | VInt64 (z : Z)
| VUint (z : Z) | VUint8 (z : Z) | VUint16 (z : Z) | VUint32 (z : Z)
| VUint64 (z : Z)
| VFloat32 (bits : Z) | VFloat64 (bits : Z)
| VString (s : string).

Definition kindOf (b : Basic) : reflect.Kind :=
  match b with
  | VBool _ => reflect.Bool
  | VInt _ => reflect.Int | VInt8 _ => reflect.Int8 | VInt16 _ => reflect.Int16
  | VInt32 _ => reflect.Int32 | VInt64 _ => reflect.Int64
  | VUint _ => reflect.Uint | VUint8 _ => reflect.Uint8
  | VUint16 _ => reflect.Uint16 | VUint32 _ => reflect.Uint32
  | VUint64 _ => reflect.Uint64
  | VFloat32 _ => reflect.Float32 | VFloat64 _ => reflect.Float64
  | VString _ => reflect.String
  end.

(** Modelled from the spec: the [Links] and [Meta] types, declared outside
    [response.go].  A link is a string, a link object, or a value of another
    shape, which validation rejects; meta information is an opaque map. *)
Inductive LinkValue : Type :=
| LinkString (href : string)
| LinkObject (href : string) (meta : gmap string string)
| LinkOther.

Abbreviation LinksT := (gmap string LinkValue).
Abbreviation MetaT := (gmap string string).

(** Modelled from the spec: the optional capabilities of a model type, the
    interfaces [Linkable], [Metable], [RelationshipLinkable] and
    [RelationshipMetable], declared outside [response.go].  [None] means the
    type does not implement the interface; otherwise the field is what the
    method returns. *)
Record Hooks : Type := MkHooks {
  JSONAPILinks : option LinksT;
  JSONAPIMeta : option MetaT;
  JSONAPIRelationshipLinks : option (string → option LinksT);
  JSONAPIRelationshipMeta : option (string → option MetaT)
}.

Definition noHooks : Hooks := MkHooks None None None None.

(** The value of a struct field, by the shape of its type:
    - [Val b]: a predeclared type;
    - [PtrTo b], [NilPtr elem]: a pointer to a value of kind [elem], set or nil;
    - [TimeVal], [TimePtr]: [time.Time] and [*time.Time];
    - [StructPtr]: a pointer to an annotated struct (nil is [None]);
    - [StructPtrSlice]: a slice of such pointers (the nil slice is [None]).

    A [Model] is the struct behind a model pointer: the capabilities of its
    type and its fields in declaration order.  A [Field] carries its
    [jsonapi] tag (empty when the field has none) and the name of its type
    as [reflect] prints it. *)
Inductive FieldValue : Type :=
| Val (b : Basic)
| PtrTo (b : Basic)
| NilPtr (elem : reflect.Kind)
| TimeVal (t : Time)
| TimePtr (p : option Time)
| StructPtr (p : option Model)
| StructPtrSlice (s : option (list (option Model)))
with Model : Type :=
| MkModel (hooks : Hooks) (fields : list Field)
with Field : Type :=
| MkField (tag : string) (typ : string) (value : FieldValue).

Definition fieldsOf (m : Model) : list Field := let 'MkModel _ fs := m in fs.

(** ** Output document *)

(** A value stored in the attribute map, an [interface{}]: the nil
    interface or the value of a field. *)
Inductive AttrValue : Type :=
| AttrNil
| AttrOf (v : FieldValue).

(** Modelled from the spec: the node and payload types, declared outside
    [response.go]; the data model section of the specification lists their
    fields.  A relationship entry over nodes of type [N] is a
    [RelationshipOneNode] or a [RelationshipManyNode]. *)
Inductive RelationshipOf (N : Type) : Type :=
| RelationshipOneNode (Data : option N) (links : option LinksT)
    (meta : option MetaT)
| RelationshipManyNode (Data : list N) (links : option LinksT)
    (meta : option MetaT).
Arguments RelationshipOneNode {N} Data links meta.
Arguments RelationshipManyNode {N} Data links meta.

Inductive Node : Type := MkNode {
  Type_ : string;
  ID : string;
  ClientID : string;
  Attributes : option (gmap string AttrValue);
  Relationships : option (gmap string (RelationshipOf Node));
  Links : option LinksT;
  Meta : option MetaT
}.

Abbreviation Relationship := (RelationshipOf Node).

(** [new(Node)] *)
Definition newNode : Node :=
  MkNode EmptyString EmptyString EmptyString None None None None.

Record OnePayload : Type := MkOnePayload {
  OneData : option Node;
  OneIncluded : option (list Node)
}.

Record ManyPayload : Type := MkManyPayload {
  ManyData : list (option Node);
  ManyIncluded : option (list Node)
}.

(** ** Annotation keywords *)

(** Modelled from the spec: the annotation constants, declared outside
    [response.go]; the external interface section of the specification lists
    the role keywords, the modifier keywords and the comma separator. *)
Definition annotationPrimary : string := "primary".
Definition annotationClientID : string := "client-id".
Definition annotationAttribute : string := "attr".
Definition annotationRelation : string := "relation".
Definition annotationOmitEmpty : string := "omitempty".
Definition annotationISO8601 : string := "iso8601".
Definition annotationRFC3339 : string := "rfc3339".
Definition annotationSeperator : ascii := ","%char.

(** Modelled from the spec: the layout constant behind the [iso8601]
    modifier, declared outside [response.go]; the specification asks for a
    UTC ISO-8601 rendering. *)
Definition iso8601TimeFormat : string := "2006-01-02T15:04:05Z".

(** ** Reflection on field values *)

(** [fieldValue.Kind()] *)
Definition Kind (fv : FieldValue) : reflect.Kind :=
  match fv with
  | Val b => kindOf b
  | PtrTo _ | NilPtr _ | TimePtr _ | StructPtr _ => reflect.Ptr
  | TimeVal _ => reflect.Struct
  | StructPtrSlice _ => reflect.Slice
  end.

(** [fieldType.Type.Elem().Kind()] of a pointer field. *)
Definition ElemKind (fv : FieldValue) : reflect.Kind :=
  match fv with
  | PtrTo b => kindOf b
  | NilPtr k => k
  | TimePtr _ | StructPtr _ => reflect.Struct
  | Val _ | TimeVal _ | StructPtrSlice _ => reflect.Struct
  end.

(** The predeclared value read through [v], where [v] is the field value or,
    for a pointer field, [reflect.Indirect(fieldValue)]: [None] is the zero
    [Value] that [Indirect] returns for a nil pointer. *)
Definition indirectBasic (fv : FieldValue) : option Basic :=
  match fv with
  | Val b | PtrTo b => Some b
  | _ => None
  end.

(** [v.Interface().(T)] with [T] the predeclared type of kind [k]:
    [Interface] panics on the zero [Value], the assertion on another type. *)
Definition interfaceAs (k : reflect.Kind) (v : option Basic) : outcome Basic :=
  match v with
  | Some b => if decide (kindOf b = k) then Ret b else Panic
  | None => Panic
  end.

(** The number held by an integer value, read at the width of its type. *)
Definition intValue (b : Basic) : Z :=
  match b with
  | VInt z => asSigned intSize z
  | VInt8 z => asSigned 8 z
  | VInt16 z => asSigned 16 z
  | VInt32 z => asSigned 32 z
  | VInt64 z => asSigned 64 z
  | VUint z => asUnsigned intSize z
  | VUint8 z => asUnsigned 8 z
  | VUint16 z => asUnsigned 16 z
  | VUint32 z => asUnsigned 32 z
  | VUint64 z => asUnsigned 64 z
  | _ => 0
  end.

Definition stringValue (b : Basic) : string :=
  match b with VString s => s | _ => EmptyString end.

(** [fieldValue.IsNil()]; it panics on kinds that cannot be nil. *)
Definition IsNil (fv : FieldValue) : outcome bool :=
  match fv with
  | Val _ | TimeVal _ => Panic
  | PtrTo _ => Ret false
  | NilPtr _ => Ret true
  | TimePtr p => Ret (bool_decide (p = None))
  | StructPtr None => Ret true
  | StructPtr (Some _) => Ret false
  | StructPtrSlice None => Ret true
  | StructPtrSlice (Some _) => Ret false
  end.

(** [fieldValue.Len()] of a slice. *)
Definition Len (fv : FieldValue) : Z :=
  match fv with
  | StructPtrSlice (Some l) => Z.of_nat (length l)
  | _ => 0
  end.

(** [fieldValue.String()] *)
Definition valueString (typ : string) (fv : FieldValue) : string :=
  match fv with
  | Val (VString s) => s
  | _ => "<" +:+ typ +:+ " Value>"
  end.

(** [reflect.DeepEqual] of the field value and the zero value of its type. *)
Definition isZeroBasic (b : Basic) : bool :=
  match b with
  | VBool x => negb x
  | VFloat32 bits => bits `mod` 2 ^ 31 =? 0
  | VFloat64 bits => bits `mod` 2 ^ 63 =? 0
  | VString s => bool_decide (s = EmptyString)
  | _ => intValue b =? 0
  end.

Definition isZeroValue (fv : FieldValue) : bool :=
  match fv with
  | Val b => isZeroBasic b
  | PtrTo _ => false
  | NilPtr _ => true
  | TimeVal t => IsZero t
  | TimePtr p => bool_decide (p = None)
  | StructPtr None => true
  | StructPtr (Some _) => false
  | StructPtrSlice None => true
  | StructPtrSlice (Some _) => false
  end.

(** ** The inclusion registry *)

Abbreviation Registry := (gmap (string * string) Node).

Definition nodeKey (n : Node) : string * string := (Type_ n, ID n).

(** Modelled from the spec: [appendIncluded], defined outside [response.go].
    The registry is keyed by (type, id); a registration for a key already
    present replaces the stored node and raises no error.  The registry is
    reached through the [included] pointer, nil in embedded mode. *)
Definition appendIncluded (included : option Registry) (n : Node)
  : outcome (option Registry) :=
  match included with
  | Some m => Ret (Some (<[nodeKey n := n]> m))
  | None => Panic
  end.

(** Modelled from the spec: [toShallowNode], defined outside [response.go].
    A reference keeps the id, the type and the client id only. *)
Definition toShallowNode (n : Node) : Node :=
  MkNode (Type_ n) (ID n) (ClientID n) None None None None.

(** Modelled from the spec: [nodeMapValues], defined outside [response.go].
    The entries of the registry become the included list. *)
Definition nodeMapValues (included : Registry) : list Node :=
  (map_to_list included).*2.

(** Modelled from the spec: the [validate] method of [Links], defined
    outside [response.go].  Every link is a string or a link object. *)
Definition validLink (v : LinkValue) : bool :=
  match v with LinkOther => false | _ => true end.

Definition validate (l : LinksT) : outcome unit :=
  if forallb validLink (map_to_list l).*2 then Ret ()
  else Fail ErrInvalidLink.

(** ** Updates of the node under construction *)

Definition setID (id : string) (n : Node) : Node :=
  MkNode (Type_ n) id (ClientID n) (Attributes n) (Relationships n)
    (Links n) (Meta n).
Definition setType (ty : string) (n : Node) : Node :=
  MkNode ty (ID n) (ClientID n) (Attributes n) (Relationships n)
    (Links n) (Meta n).
Definition setClientID (c : string) (n : Node) : Node :=
  MkNode (Type_ n) (ID n) c (Attributes n) (Relationships n)
    (Links n) (Meta n).
Definition setAttributes (a : option (gmap string AttrValue)) (n : Node)
  : Node :=
  MkNode (Type_ n) (ID n) (ClientID n) a (Relationships n) (Links n) (Meta n).
Definition setRelationships (r : option (gmap string Relationship))
  (n : Node) : Node :=
  MkNode (Type_ n) (ID n) (ClientID n) (Attributes n) r (Links n) (Meta n).
Definition setLinks (l : option LinksT) (n : Node) : Node :=
  MkNode (Type_ n) (ID n) (ClientID n) (Attributes n) (Relationships n)
    l (Meta n).
Definition setMeta (m : option MetaT) (n : Node) : Node :=
  MkNode (Type_ n) (ID n) (ClientID n) (Attributes n) (Relationships n)
    (Links n) m.

(** [node.Attributes[name] = v]; assigning into a nil map panics. *)
Definition assignAttribute (name : string) (v : AttrValue) (n : Node)
  : outcome Node :=
  match Attributes n with
  | Some m => Ret (setAttributes (Some (<[name := v]> m)) n)
  | None => Panic
  end.

(** [node.Relationships[name] = r] *)
Definition assignRelationship (name : string) (r : Relationship) (n : Node)
  : outcome Node :=
  match Relationships n with
  | Some m => Ret (setRelationships (Some (<[name := r]> m)) n)
  | None => Panic
  end.

(** ** Field classification *)

(** The modifiers of an attribute: the loop over [args[2:]]. *)
Record AttrModifiers : Type := MkAttrModifiers {
  omitEmpty : bool;
  iso8601 : bool;
  rfc3339 : bool
}.

Definition attrModifier (fl : AttrModifiers) (arg : string) : AttrModifiers :=
  if decide (arg = annotationOmitEmpty)
  then MkAttrModifiers true (iso8601 fl) (rfc3339 fl)
  else if decide (arg = annotationISO8601)
  then MkAttrModifiers (omitEmpty fl) true (rfc3339 fl)
  else if decide (arg = annotationRFC3339)
  then MkAttrModifiers (omitEmpty fl) (iso8601 fl) true
  else fl.

Definition attrModifiers (args : list string) : AttrModifiers :=
  let none := MkAttrModifiers false false false in
  if (2 <? length args)%nat then foldl attrModifier none (drop 2 args)
  else none.

(** The [omitempty] flag of a relation: [args[2] == annotationOmitEmpty]. *)
Definition relationOmitEmpty (args : list string) : bool :=
  if (2 <? length args)%nat
  then bool_decide (args !!! 2%nat = annotationOmitEmpty)
  else false.

(** ** The traversal: [visitModelNode] *)

Abbreviation State := (Node * option Registry)%type.

(** A [for ... range] loop whose body may return an error or panic. *)
Fixpoint forEach {A S : Type} (body : A → S → outcome S) (l : list A) (st : S)
  : outcome S :=
  match l with
  | [] => Ret st
  | x :: rest => st' ← body x st; forEach body rest st'
  end.

(** The [switch kind] of the primary-key branch. *)
Definition primaryID (kind : reflect.Kind) (v : option Basic) : outcome string :=
  match kind with
  | reflect.String =>
      b ← interfaceAs reflect.String v; Ret (stringValue b)
  | reflect.Int => b ← interfaceAs reflect.Int v; Ret (FormatInt (intValue b))
  | reflect.Int8 => b ← interfaceAs reflect.Int8 v; Ret (FormatInt (intValue b))
  | reflect.Int16 => b ← interfaceAs reflect.Int16 v; Ret (FormatInt (intValue b))
  | reflect.Int32 => b ← interfaceAs reflect.Int32 v; Ret (FormatInt (intValue b))
  | reflect.Int64 => b ← interfaceAs reflect.Int64 v; Ret (FormatInt (intValue b))
  | reflect.Uint => b ← interfaceAs reflect.Uint v; Ret (FormatUint (intValue b))
  | reflect.Uint8 => b ← interfaceAs reflect.Uint8 v; Ret (FormatUint (intValue b))
  | reflect.Uint16 =>
      b ← interfaceAs reflect.Uint16 v; Ret (FormatUint (intValue b))
  | reflect.Uint32 =>
      b ← interfaceAs reflect.Uint32 v; Ret (FormatUint (intValue b))
  | reflect.Uint64 =>
      b ← interfaceAs reflect.Uint64 v; Ret (FormatUint (intValue b))
  | _ => Fail ErrBadJSONAPIID
  end.

(** The rendering shared by the two timestamp branches. *)
Definition timeAttribute (fl : AttrModifiers) (t : Time) : AttrValue :=
  if iso8601 fl then AttrOf (Val (VString (Format (UTC t) iso8601TimeFormat)))
  else if rfc3339 fl then AttrOf (Val (VString (Format (UTC t) RFC3339)))
  else AttrOf (Val (VInt64 (Unix t))).

Section fields.
(** The recursive call on the struct behind a non-nil model pointer, the
    capabilities of the model under traversal, and the [sideload] flag. *)
Variable visit : Model → option Registry → bool → outcome State.
Variable hooks : Hooks.
Variable sideload : bool.

Definition visitPrimary (args : list string) (fieldValue : FieldValue)
  (node : Node) : outcome Node :=
  let kind :=
    if decide (Kind fieldValue = reflect.Ptr) then ElemKind fieldValue
    else Kind fieldValue in
  id ← primaryID kind (indirectBasic fieldValue);
  Ret (setType (args !!! 1%nat) (setID id node)).

Definition visitClientID (typ : string) (fieldValue : FieldValue)
  (node : Node) : Node :=
  let clientID := valueString typ fieldValue in
  if decide (clientID = EmptyString) then node else setClientID clientID node.

Definition visitAttribute (args : list string) (fieldValue : FieldValue)
  (node : Node) : outcome Node :=
  let fl := attrModifiers args in
  let name := args !!! 1%nat in
  let node :=
    match Attributes node with
    | None => setAttributes (Some ∅) node
    | Some _ => node
    end in
  match fieldValue with
  | TimeVal t =>
      if IsZero t then Ret node
      else assignAttribute name (timeAttribute fl t) node
  | TimePtr None =>
      if omitEmpty fl then Ret node else assignAttribute name AttrNil node
  | TimePtr (Some tm) =>
      if IsZero tm && omitEmpty fl then Ret node
      else assignAttribute name (timeAttribute fl tm) node
  | _ =>
      if omitEmpty fl && isZeroValue fieldValue then Ret node
      else
        match fieldValue with
        | Val (VString strAttr) =>
            assignAttribute name (AttrOf (Val (VString strAttr))) node
        | _ => assignAttribute name (AttrOf fieldValue) node
        end
  end.

(** Modelled from the spec: [visitModelNodeRelationships], defined outside
    [response.go].  One node per element, in order; a nil element yields
    no node and is skipped; the first error aborts the relationship. *)
Fixpoint visitElements (models : list (option Model))
  (included : option Registry) : outcome (list Node * option Registry) :=
  match models with
  | [] => Ret ([], included)
  | None :: rest => visitElements rest included
  | Some m :: rest =>
      '(n, included) ← visit m included sideload;
      '(ns, included) ← visitElements rest included;
      Ret (n :: ns, included)
  end.

Definition visitModelNodeRelationships (models : FieldValue)
  (included : option Registry) : outcome (list Node * option Registry) :=
  match models with
  | StructPtrSlice (Some l) => visitElements l included
  | _ => Ret ([], included)
  end.

(** [visitModelNode(fieldValue.Interface(), included, sideload)] for a
    pointer field that is not nil.  A pointer to a predeclared type makes
    [NumField] panic; [time.Time] has no annotated field and yields the
    empty node. *)
Definition visitTarget (fieldValue : FieldValue)
  (included : option Registry) : outcome State :=
  match fieldValue with
  | StructPtr (Some m) => visit m included sideload
  | TimePtr (Some _) => Ret (newNode, included)
  | _ => Panic
  end.

Definition visitRelation (args : list string) (fieldValue : FieldValue)
  (st : State) : outcome State :=
  let '(node, included) := st in
  let omitEmpty := relationOmitEmpty args in
  let name := args !!! 1%nat in
  let isSlice := bool_decide (Kind fieldValue = reflect.Slice) in
  skip ← (if omitEmpty
          then if isSlice then Ret (Len fieldValue <? 1) else IsNil fieldValue
          else Ret false);
  if (skip : bool) then Ret st
  else
    let node :=
      match Relationships node with
      | None => setRelationships (Some ∅) node
      | Some _ => node
      end in
    let relLinks := f ← JSONAPIRelationshipLinks hooks; f name in
    let relMeta := f ← JSONAPIRelationshipMeta hooks; f name in
    if isSlice then
      '(data, included) ← visitModelNodeRelationships fieldValue included;
      if sideload then
        included ← forEach (λ n inc, appendIncluded inc n) data included;
        node ← assignRelationship name
          (RelationshipManyNode (toShallowNode <$> data) relLinks relMeta)
          node;
        Ret (node, included)
      else
        node ← assignRelationship name
          (RelationshipManyNode data relLinks relMeta) node;
        Ret (node, included)
    else
      isNil ← IsNil fieldValue;
      if (isNil : bool) then
        node ← assignRelationship name (RelationshipOneNode None None None)
          node;
        Ret (node, included)
      else
        '(relationship, included) ← visitTarget fieldValue included;
        if sideload then
          included ← appendIncluded included relationship;
          node ← assignRelationship name
            (RelationshipOneNode (Some (toShallowNode relationship))
               relLinks relMeta) node;
          Ret (node, included)
        else
          node ← assignRelationship name
            (RelationshipOneNode (Some relationship) relLinks relMeta) node;
          Ret (node, included).

(** The body of the loop over the struct fields.  [Fail] is the [break]
    with [er] set; [Ret] covers [continue] and the end of the body. *)
Definition visitField (f : Field) (st : State) : outcome State :=
  let 'MkField tag typ fieldValue := f in
  if decide (tag = EmptyString) then Ret st
  else
    let args := Split tag annotationSeperator in
    if (length args <? 1)%nat then Fail ErrBadJSONAPIStructTag
    else
      let annotation := args !!! 0%nat in
      if (bool_decide (annotation = annotationClientID)
            && negb (length args =? 1)%nat)
         || (negb (bool_decide (annotation = annotationClientID))
               && (length args <? 2)%nat)
      then Fail ErrBadJSONAPIStructTag
      else if decide (annotation = annotationPrimary) then
        node ← visitPrimary args fieldValue st.1; Ret (node, st.2)
      else if decide (annotation = annotationClientID) then
        Ret (visitClientID typ fieldValue st.1, st.2)
      else if decide (annotation = annotationAttribute) then
        node ← visitAttribute args fieldValue st.1; Ret (node, st.2)
      else if decide (annotation = annotationRelation) then
        visitRelation args fieldValue st
      else Fail ErrBadJSONAPIStructTag.

(** After the loop: the [Linkable] and [Metable] capabilities. *)
Definition finishNode (node : Node) : outcome Node :=
  node ← match JSONAPILinks hooks with
         | Some jl => _ ← validate jl; Ret (setLinks (Some jl) node)
         | None => Ret node
         end;
  match JSONAPIMeta hooks with
  | Some meta => Ret (setMeta (Some meta) node)
  | None => Ret node
  end.
End fields.

(** The traversal of the struct behind a model pointer that is not nil. *)
Fixpoint visitStruct (m : Model) (included : option Registry) (sideload : bool)
  {struct m} : outcome State :=
  match m with
  | MkModel hooks fields =>
      '(node, included) ←
        forEach (visitField visitStruct hooks sideload) fields
          (newNode, included);
      node ← finishNode hooks node;
      Ret (node, included)
  end.

Definition visitModelNode (model : option Model) (included : option Registry)
  (sideload : bool) : outcome (option Node * option Registry) :=
  match model with
  | None => Ret (None, included)
  | Some m =>
      '(node, included) ← visitStruct m included sideload;
      Ret (Some node, included)
  end.

(** ** Entry points *)

Definition marshalOne (model : option Model) : outcome OnePayload :=
  '(rootNode, included) ← visitModelNode model (Some ∅) true;
  Ret (MkOnePayload rootNode (Some (nodeMapValues (default ∅ included)))).

Definition marshalMany (models : list (option Model)) : outcome ManyPayload :=
  '(data, included) ←
    forEach
      (λ model (acc : list (option Node) * option Registry),
         '(node, included) ← visitModelNode model acc.2 true;
         Ret ((acc.1 ++ [node])%list, included))
      models ([], Some ∅);
  Ret (MkManyPayload data (Some (nodeMapValues (default ∅ included)))).

(** The payload handed to the JSON encoder by [MarshalOnePayloadEmbedded]. *)
Definition MarshalOnePayloadEmbedded (model : option Model)
  : outcome OnePayload :=
  '(rootNode, _) ← visitModelNode model None false;
  Ret (MkOnePayload rootNode None).

(** ** Sample models *)

Module Samples.
Definition widget : Model :=
  MkModel noHooks
    [ MkField "primary,widgets" "int64" (Val (VInt64 42));
      MkField "attr,name" "string" (Val (VString "Foo")) ].

Definition author (id : Z) (name : string) : Model :=
  MkModel noHooks
    [ MkField "primary,authors" "int" (Val (VInt id));
      MkField "attr,name" "string" (Val (VString name)) ].

Definition post (id : Z) (a : option Model) : Model :=
  MkModel noHooks
    [ MkField "primary,posts" "uint64" (Val (VUint64 id));
      MkField EmptyString "bool" (Val (VBool true));
      MkField "relation,author" "*Author" (StructPtr a) ].

(** A struct whose primary key is an unset [*string]. *)
Definition nilID : Model :=
  MkModel noHooks
    [ MkField "primary,things" "*string" (NilPtr reflect.String);
      MkField "attr,name" "string" (Val (VString "Foo")) ].

(** A model whose second field has a malformed tag. *)
Definition badAttr : Model :=
  MkModel noHooks
    [ MkField "primary,things" "string" (Val (VString "a"));
      MkField "attr" "string" (Val (VString "Foo")) ].

(** Two posts by the same author. *)
Definition twoPosts : list (option Model) :=
  [ Some (post 1 (Some (author 7 "Ann")));
    Some (post 2 (Some (author 7 "Ann"))) ].

Definition authorRef : Node := MkNode "authors" "7" EmptyString None None None None.

Definition postNode (id : string) : Node :=
  MkNode "posts" id EmptyString None
    (Some {[ "author" := RelationshipOneNode (Some authorRef) None None ]})
    None None.

Definition authorNode : Node :=
  MkNode "authors" "7" EmptyString
    (Some {[ "name" := AttrOf (Val (VString "Ann")) ]}) None None None.

Definition twoPostsPayload : ManyPayload :=
  MkManyPayload [Some (postNode "1"); Some (postNode "2")]
    (Some [authorNode]).

(** A shelf that refers to the same author three times. *)
Definition shelf : Model :=
  MkModel noHooks
    [ MkField "primary,shelves" "string" (Val (VString "s1"));
      MkField "relation,owner" "*Author" (StructPtr (Some (author 7 "Ann")));
      MkField "relation,readers" "[]*Author"
        (StructPtrSlice
           (Some [Some (author 7 "Ann"); None; Some (author 7 "Ann")])) ].

Definition shelfPayload : OnePayload :=
  MkOnePayload
    (Some (MkNode "shelves" "s1" EmptyString None
             (Some {[ "owner" :=
                        RelationshipOneNode (Some authorNode) None None;
                      "readers" :=
                        RelationshipManyNode [authorNode; authorNode]
                          None None ]})
             None None))
    None.

(** A model whose attribute values are all omitted, and the same model
    without attribute fields. *)
Definition unsetAttributes : Model :=
  MkModel noHooks
    [ MkField "primary,things" "int" (Val (VInt 1));
      MkField "attr,created" "time.Time" (TimeVal (MkTime 0 0 0));
      MkField "attr,name,omitempty" "string" (Val (VString EmptyString)) ].

Definition noAttributes : Model :=
  MkModel noHooks [ MkField "primary,things" "int" (Val (VInt 1)) ].
End Samples.

(** ** Vocabulary of the specification *)





Definition supportedKind (k : reflect.Kind) : bool :=
  match k with
  | reflect.String
  | reflect.Int | reflect.Int8 | reflect.Int16 | reflect.Int32 | reflect.Int64
  | reflect.Uint | reflect.Uint8 | reflect.Uint16 | reflect.Uint32
  | reflect.Uint64 => true
  | _ => false
  end.

(** The value stored under [name] in the attribute map of a node. *)
Definition attributeAt (name : string) (n : Node) : option AttrValue :=
  m ← Attributes n; m !! name.

(** The role keyword of a tag: the first of its parts. *)
Definition roleOf (tag : string) : string :=
  Split tag annotationSeperator !!! 0%nat.

Definition recognizedRole (role : string) : Prop :=
  role = annotationPrimary ∨ role = annotationClientID
  ∨ role = annotationAttribute ∨ role = annotationRelation.

(** The metadata contract of the specification: a tag violates it when its
    role is [client-id] and it has more than one part, when its role is
    another one and it has a single part, or when its role is not a
    recognized keyword.  Fields without a tag are not annotated. *)
Definition malformedTag (tag : string) : Prop :=
  tag ≠ EmptyString
  ∧ let parts := length (Split tag annotationSeperator) in
    (roleOf tag = annotationClientID ∧ parts ≠ 1%nat)
    ∨ (roleOf tag ≠ annotationClientID ∧ (parts < 2)%nat)
    ∨ ¬ recognizedRole (roleOf tag).

(** The field is annotated as an attribute. *)
Definition isAttributeField (f : Field) : Prop :=
  let 'MkField tag _ _ := f in tag ≠ EmptyString ∧ roleOf tag = annotationAttribute.

Definition recognizedModifier (arg : string) : Prop :=
  arg = annotationOmitEmpty ∨ arg = annotationISO8601
  ∨ arg = annotationRFC3339.

Global Instance recognizedModifier_dec arg : Decision (recognizedModifier arg).
Proof. unfold recognizedModifier. apply _. Defined.

(** The entry stored under [name] in the relationship map of a node. *)
Definition relationshipAt (name : string) (n : Node) : option Relationship :=
  m ← Relationships n; m !! name.

(** The relationship entry a relation field stores and the registry it
    leaves, for a field that is not omitted. *)
Inductive relationEntry (visit : Model → option Registry → bool → outcome State)
  (hooks : Hooks) (sideload : bool) (args : list string) (fv : FieldValue)
  (included : option Registry) : Relationship → option Registry → Prop :=
| entry_null :
    IsNil fv = Ret true → Kind fv ≠ reflect.Slice →
    relationEntry visit hooks sideload args fv included
      (RelationshipOneNode None None None) included
| entry_one relationship included1 included' :
    Kind fv ≠ reflect.Slice →
    visitTarget visit sideload fv included = Ret (relationship, included1) →
    (if sideload then appendIncluded included1 relationship = Ret included'
     else included' = included1) →
    relationEntry visit hooks sideload args fv included
      (RelationshipOneNode
         (Some (if sideload then toShallowNode relationship else relationship))
         (f ← JSONAPIRelationshipLinks hooks; f (args !!! 1%nat))
         (f ← JSONAPIRelationshipMeta hooks; f (args !!! 1%nat)))
      included'
| entry_many data included1 included' :
    Kind fv = reflect.Slice →
    visitModelNodeRelationships visit sideload fv included
    = Ret (data, included1) →
    (if sideload
     then forEach (λ n inc, appendIncluded inc n) data included1 = Ret included'
     else included' = included1) →
    relationEntry visit hooks sideload args fv included
      (RelationshipManyNode
         (if sideload then toShallowNode <$> data else data)
         (f ← JSONAPIRelationshipLinks hooks; f (args !!! 1%nat))
         (f ← JSONAPIRelationshipMeta hooks; f (args !!! 1%nat)))
      included'.

(** The state a successful relation step leaves: the field is omitted, or
    its entry is stored under the output name. *)
Inductive relationStep (visit : Model → option Registry → bool → outcome State)
  (hooks : Hooks) (sideload : bool) (args : list string) (fv : FieldValue)
  (node : Node) (included : option Registry) : State → Prop :=
| step_omitted :
    relationOmitEmpty args = true →
    (if bool_decide (Kind fv = reflect.Slice) then (Len fv <? 1) = true
     else IsNil fv = Ret true) →
    relationStep visit hooks sideload args fv node included (node, included)
| step_stored r included' :
    relationEntry visit hooks sideload args fv included r included' →
    relationStep visit hooks sideload args fv node included
      (setRelationships
         (Some (<[args !!! 1%nat := r]> (default ∅ (Relationships node))))
         node, included').

(** A model with a malformed tag on one of its own fields or, through
    relation fields that are set, on a field of a related model. *)
Inductive hasMalformedField : Model → Prop :=
| malformed_here hooks fs1 tag typ fv fs2 :
    malformedTag tag →
    hasMalformedField (MkModel hooks (fs1 ++ MkField tag typ fv :: fs2)%list)
| malformed_to_one hooks fs1 tag typ name mods child fs2 :
    Split tag annotationSeperator = annotationRelation :: name :: mods →
    hasMalformedField child →
    hasMalformedField
      (MkModel hooks
         (fs1 ++ MkField tag typ (StructPtr (Some child)) :: fs2)%list)
| malformed_to_many hooks fs1 tag typ name mods l child fs2 :
    Split tag annotationSeperator = annotationRelation :: name :: mods →
    Some child ∈ l →
    hasMalformedField child →
    hasMalformedField
      (MkModel hooks
         (fs1 ++ MkField tag typ (StructPtrSlice (Some l)) :: fs2)%list).

(** The premises of the induction over a model and the models its relation
    fields point to: [P] holds of every model behind a field. *)
Section fieldHolds.
Variable P : Model → Prop.

Definition elemHolds (o : option Model) : Prop :=
  match o with Some m => P m | None => True end.

Definition fieldHolds (f : Field) : Prop :=
  match f with
  | MkField _ _ (StructPtr (Some m)) => P m
  | MkField _ _ (StructPtrSlice (Some l)) => Forall elemHolds l
  | _ => True
  end.
End fieldHolds.

(** A reference ("shallow node"): identifier fields only. *)
Definition isReference (d : Node) : Prop :=
  Attributes d = None ∧ Relationships d = None
  ∧ Links d = None ∧ Meta d = None.

(** The nodes a relationship entry carries as data. *)
Definition relationshipData (r : Relationship) : list Node :=
  match r with
  | RelationshipOneNode (Some d) _ _ => [d]
  | RelationshipOneNode None _ _ => []
  | RelationshipManyNode ds _ _ => ds
  end.

(** Every relationship entry of the node carries references only, and the
    identity of each is among [keys]. *)
Definition referencesOnly (keys : gset (string * string)) (n : Node) : Prop :=
  ∀ name r d,
    relationshipAt name n = Some r → d ∈ relationshipData r →
    isReference d ∧ nodeKey d ∈ keys.

(** The entries of an included list for one identity. *)
Definition entriesFor (k : string * string) (incl : list Node) : list Node :=
  filter (λ n, nodeKey n = k) incl.

(** The registry invariant of sideload mode: every node is stored under its
    own identity and refers to other resources by reference, each of them
    registered. *)
Definition registryOK (inc : Registry) : Prop :=
  ∀ k n, inc !! k = Some n → nodeKey n = k ∧ referencesOnly (dom inc) n.

(** What a traversal in sideload mode guarantees of the registry it leaves
    and of the node it returns. *)
Definition sideloadPost (inc : Registry) (included' : option Registry)
  (ok : Registry → Prop) : Prop :=
  ∃ inc', included' = Some inc' ∧ registryOK inc' ∧ dom inc ⊆ dom inc'
          ∧ ok inc'.

Definition sideloadOK (m : Model) : Prop :=
  ∀ inc node included',
    registryOK inc →
    visitStruct m (Some inc) true = Ret (node, included') →
    sideloadPost inc included' (λ inc', referencesOnly (dom inc') node).

(** ** The [Marshal] entry point *)

(** Modelled from the spec: the [Payloader] interface and the top-level
    [Links] and [Meta] fields of [ManyPayload], declared outside
    [response.go].  [Marshal] is the only function that sets these two fields;
    they are carried beside the payload record. *)
Inductive Payloader : Type :=
| PayloadOne (p : OnePayload)
| PayloadMany (p : ManyPayload) (links : option LinksT) (meta : option MetaT).

(** The struct behind a [*time.Time]: no field carries a [jsonapi] tag and
    the type implements none of the capabilities. *)
Definition timeStruct : Model := MkModel noHooks [].

Section Marshal.
(** [convertToSliceInterface], defined outside [response.go]: the elements of
    a slice as model pointers, or an error. *)
Variable convertToSliceInterface : FieldValue → outcome (list (option Model)).

(** [Marshal(models)].  The argument is a Go value of one of the shapes of
    [FieldValue]; [hooks] are the capabilities of its dynamic type, which the
    slice case queries. *)
Definition Marshal (hooks : Hooks) (models : FieldValue) : outcome Payloader :=
  match Kind models with
  | reflect.Slice =>
      m ← convertToSliceInterface models;
      payload ← marshalMany m;
      links ← match JSONAPILinks hooks with
              | Some jl => _ ← validate jl; Ret (Some jl)
              | None => Ret None
              end;
      Ret (PayloadMany payload links (JSONAPIMeta hooks))
  | reflect.Ptr =>
      match models with
      | StructPtr (Some m) => p ← marshalOne (Some m); Ret (PayloadOne p)
      | TimePtr (Some _) => p ← marshalOne (Some timeStruct); Ret (PayloadOne p)
      | _ => Fail ErrUnexpectedType
      end
  | _ => Fail ErrUnexpectedType
  end.
End Marshal.

(** ** Further vocabulary *)

Definition hooksOf (m : Model) : Hooks := let 'MkModel h _ := m in h.

Definition tagOf (f : Field) : string := let 'MkField tag _ _ := f in tag.
Definition valueOf (f : Field) : FieldValue := let 'MkField _ _ v := f in v.

(** The output name of a tag: the second of its parts. *)
Definition nameOf (tag : string) : string :=
  Split tag annotationSeperator !!! 1%nat.

(** The field carries a [jsonapi] tag. *)
Definition isTagged (f : Field) : Prop := tagOf f ≠ EmptyString.

Global Instance isTagged_dec f : Decision (isTagged f).
Proof. unfold isTagged. apply _. Defined.

Definition hasRole (role : string) (f : Field) : Prop :=
  isTagged f ∧ roleOf (tagOf f) = role.

(** What a node says of the resource itself: everything but its
    relationships. *)
Definition core (n : Node)
  : string * string * string * option (gmap string AttrValue)
    * option LinksT * option MetaT :=
  (Type_ n, ID n, ClientID n, Attributes n, Links n, Meta n).

(** The links and the meta information of a relationship entry. *)
Definition relationshipLinks (r : Relationship) : option LinksT :=
  match r with
  | RelationshipOneNode _ l _ | RelationshipManyNode _ l _ => l
  end.

Definition relationshipMeta (r : Relationship) : option MetaT :=
  match r with
  | RelationshipOneNode _ _ m | RelationshipManyNode _ _ m => m
  end.

(** The field is a [time.Time] or a [*time.Time], the two types the
    attribute branch treats on their own. *)
Definition isTimeField (fv : FieldValue) : bool :=
  match fv with TimeVal _ | TimePtr _ => true | _ => false end.

(** The field is a pointer and it is nil. *)
Definition isNilPointer (fv : FieldValue) : bool :=
  match fv with
  | NilPtr _ | TimePtr None | StructPtr None => true
  | _ => false
  end.

(** ** Further sample models *)

Module Cases.
Definition validLinks : LinksT :=
  {[ "self" := LinkString "http://example.com/articles/a1" ]}.

Definition invalidLinks : LinksT := {[ "self" := LinkOther ]}.

Definition counted : MetaT := {[ "count" := "1" ]}.

(** Capabilities of a type that supplies links, meta, and links for its
    [author] relationship. *)
Definition linked : Hooks :=
  MkHooks (Some validLinks) (Some counted)
    (Some (λ name, if decide (name = "author") then Some validLinks else None))
    None.

Definition badlyLinked : Hooks := MkHooks (Some invalidLinks) None None None.

Definition authorField : Field :=
  MkField "relation,author" "*Author"
    (StructPtr (Some (Samples.author 7 "Ann"))).

Definition article : Model :=
  MkModel linked
    [ MkField "primary,articles" "string" (Val (VString "a1"));
      MkField "client-id" "string" (Val (VString "c1"));
      MkField "attr,title" "string" (Val (VString "Hello"));
      MkField EmptyString "int" (Val (VInt 3));
      authorField ].

(** A model without a primary key. *)
Definition anonymous : Model :=
  MkModel noHooks [ MkField "attr,title" "string" (Val (VString "Hello")) ].

Definition badlyLinkedArticle : Model :=
  MkModel badlyLinked
    [ MkField "primary,articles" "string" (Val (VString "a1")) ].

(** A conversion for the examples: the elements of a slice of model
    pointers. *)
Definition sliceElements (fv : FieldValue) : outcome (list (option Model)) :=
  match fv with
  | StructPtrSlice (Some l) => Ret l
  | StructPtrSlice None => Ret []
  | _ => Fail ErrExpectedSlice
  end.
End Cases.

(** * Properties *)

(** ** Sanity checks of the embedding *)

Example Format_epoch :
  Format (MkTime 62135596800 0 0) RFC3339 = "1970-01-01T00:00:00Z".
Proof. reflexivity. Qed.

Example Format_leap_day :
  Format (UTC (MkTime (62135596800 + 1709216130) 7 3600)) RFC3339
  = "2024-02-29T14:15:30Z".
Proof. reflexivity. Qed.

Example Format_zone :
  Format (MkTime (62135596800 + 1709216130) 7 (-19800)) RFC3339
  = "2024-02-29T08:45:30-05:30".
Proof. reflexivity. Qed.

Example marshalOne_widget :
  marshalOne (Some Samples.widget)
  = Ret (MkOnePayload
           (Some (MkNode "widgets" "42" EmptyString
                    (Some {[ "name" := AttrOf (Val (VString "Foo")) ]})
                    None None None))
           (Some [])).
Proof. vm_compute. reflexivity. Qed.

(** ** Loops and field dispatch *)

Lemma Split_empty : Split EmptyString annotationSeperator = [EmptyString].
Proof. reflexivity. Qed.

Lemma forEach_app {A S} (body : A → S → outcome S) l1 l2 st :
  forEach body (l1 ++ l2)%list st = st' ← forEach body l1 st; forEach body l2 st'.
Proof.
  revert st. induction l1 as [|x l1 IH]; intros st; simpl; [done|].
  destruct (body x st) as [st'| |]; simpl; [apply IH|done|done].
Qed.

Lemma bind_Ret {A B} (c : outcome A) (k : A → outcome B) b :
  c ≫= k = Ret b → ∃ a, c = Ret a ∧ k a = Ret b.
Proof. destruct c as [a| |]; simpl; [eauto|done|done]. Qed.

Ltac inv_bind H :=
  let a := fresh "a" in
  let Ha := fresh "Ha" in
  apply bind_Ret in H; destruct H as (a & Ha & H); simpl in H.

Section steps.
Context (visit : Model → option Registry → bool → outcome State)
        (hooks : Hooks) (sideload : bool).

Lemma visitField_primary tag typ fv st name mods :
  Split tag annotationSeperator = annotationPrimary :: name :: mods →
  visitField visit hooks sideload (MkField tag typ fv) st
  = node ← visitPrimary (annotationPrimary :: name :: mods) fv st.1;
    Ret (node, st.2).
Proof.
  intros Hs. unfold visitField.
  destruct (decide (tag = EmptyString)) as [->|_]; [discriminate Hs|].
  rewrite Hs. reflexivity.
Qed.

Lemma visitField_attribute tag typ fv st name mods :
  Split tag annotationSeperator = annotationAttribute :: name :: mods →
  visitField visit hooks sideload (MkField tag typ fv) st
  = node ← visitAttribute (annotationAttribute :: name :: mods) fv st.1;
    Ret (node, st.2).
Proof.
  intros Hs. unfold visitField.
  destruct (decide (tag = EmptyString)) as [->|_]; [discriminate Hs|].
  rewrite Hs. reflexivity.
Qed.

Lemma visitField_relation tag typ fv st name mods :
  Split tag annotationSeperator = annotationRelation :: name :: mods →
  visitField visit hooks sideload (MkField tag typ fv) st
  = visitRelation visit hooks sideload (annotationRelation :: name :: mods) fv st.
Proof.
  intros Hs. unfold visitField.
  destruct (decide (tag = EmptyString)) as [->|_]; [discriminate Hs|].
  rewrite Hs. reflexivity.
Qed.
End steps.

(** ** Primary keys *)







Lemma visitStruct_field_fails hooks fs1 f fs2 included sideload st1 e :
  forEach (visitField visitStruct hooks sideload) fs1 (newNode, included)
  = Ret st1 →
  visitField visitStruct hooks sideload f st1 = Fail e →
  visitModelNode (Some (MkModel hooks (fs1 ++ f :: fs2)))%list included sideload
  = Fail e.
Proof.
  intros H1 Hf. unfold visitModelNode. simpl.
  rewrite forEach_app, H1. simpl. by rewrite Hf.
Qed.

Lemma visitStruct_field_panics hooks fs1 f fs2 included sideload st1 :
  forEach (visitField visitStruct hooks sideload) fs1 (newNode, included)
  = Ret st1 →
  visitField visitStruct hooks sideload f st1 = Panic →
  visitModelNode (Some (MkModel hooks (fs1 ++ f :: fs2)))%list included sideload
  = Panic.
Proof.
  intros H1 Hf. unfold visitModelNode. simpl.
  rewrite forEach_app, H1. simpl. by rewrite Hf.
Qed.



Example primary_key_signs :
  visitModelNode
    (Some (MkModel noHooks [MkField "primary,a" "uint8" (PtrTo (VUint8 255))]))
    None false
  = Ret (Some (MkNode "a" "255" EmptyString None None None None), None)
  ∧ visitModelNode
      (Some (MkModel noHooks [MkField "primary,a" "int64" (Val (VInt64 (- 2 ^ 63)))]))
      None false
    = Ret (Some (MkNode "a" "-9223372036854775808" EmptyString None None None None), None).
Proof. split; vm_compute; reflexivity. Qed.



(** A nil pointer to a supported kind reaches [v.Interface()] with the zero
    [Value] and panics; a nil pointer to any other kind is reported as
    [ErrBadJSONAPIID]. *)
Lemma visitField_primary_nil visit hooks sideload tag typ k name mods st :
  Split tag annotationSeperator = annotationPrimary :: name :: mods →
  visitField visit hooks sideload (MkField tag typ (NilPtr k)) st
  = if supportedKind k then Panic else Fail ErrBadJSONAPIID.
Proof.
  intros Hs. rewrite (visitField_primary _ _ _ _ _ _ _ _ _ Hs).
  by destruct k.
Qed.

(** C8.  A struct whose primary key is a nil [*string] makes the traversal
    panic: no error is returned. *)
Theorem nil_pointer_primary_key_panics included sideload :
  visitModelNode (Some Samples.nilID) included sideload = Panic.
Proof.
  apply (visitStruct_field_panics noHooks [] _ [_] included sideload
           (newNode, included)); [done|].
  by rewrite (visitField_primary_nil _ _ _ _ _ _ "things" []).
Qed.

(** ** Attributes *)

Lemma Format_UTC_layouts t :
  Format (UTC t) iso8601TimeFormat = Format (UTC t) RFC3339.
Proof.
  unfold iso8601TimeFormat, RFC3339.
  cbn -[civil appendInt Z.div Z.modulo localSeconds].
  destruct (civil _) as [[y m] d].
  reflexivity.
Qed.

Lemma attrModifiers_cons a n mods :
  attrModifiers (a :: n :: mods)
  = foldl attrModifier (MkAttrModifiers false false false) mods.
Proof. by destruct mods. Qed.

Lemma foldl_attrModifier fl mods :
  let r := foldl attrModifier fl mods in
  (omitEmpty r = true ↔ omitEmpty fl = true ∨ annotationOmitEmpty ∈ mods)
  ∧ (iso8601 r = true ↔ iso8601 fl = true ∨ annotationISO8601 ∈ mods)
  ∧ (rfc3339 r = true ↔ rfc3339 fl = true ∨ annotationRFC3339 ∈ mods).
Proof.
  revert fl. induction mods as [|arg mods IH]; intros fl; simpl.
  - rewrite !elem_of_nil. tauto.
  - destruct (IH (attrModifier fl arg)) as (-> & -> & ->).
    rewrite !elem_of_cons. unfold attrModifier.
    unfold annotationOmitEmpty, annotationISO8601, annotationRFC3339 in *.
    repeat case_decide; subst; simpl; intuition congruence.
Qed.

Lemma attrModifiers_spec a n mods :
  let fl := attrModifiers (a :: n :: mods) in
  (omitEmpty fl = true ↔ annotationOmitEmpty ∈ mods)
  ∧ (iso8601 fl = true ↔ annotationISO8601 ∈ mods)
  ∧ (rfc3339 fl = true ↔ annotationRFC3339 ∈ mods).
Proof.
  simpl. rewrite attrModifiers_cons.
  destruct (foldl_attrModifier (MkAttrModifiers false false false) mods)
    as (-> & -> & ->).
  simpl. intuition congruence.
Qed.



(** ** Relationships *)

Lemma assignRelationship_ensure name r node :
  assignRelationship name r
    match Relationships node with
    | Some _ => node
    | None => setRelationships (Some ∅) node
    end
  = Ret (setRelationships
           (Some (<[name := r]> (default ∅ (Relationships node)))) node).
Proof.
  unfold assignRelationship. destruct (Relationships node) eqn:E; simpl.
  - by rewrite E.
  - done.
Qed.

Lemma visitRelation_Ret visit hooks sideload args fv node included st' :
  visitRelation visit hooks sideload args fv (node, included) = Ret st' →
  relationStep visit hooks sideload args fv node included st'.
Proof.
  unfold visitRelation. intros H.
  inv_bind H. destruct a as [|].
  { injection H as <-.
    destruct (relationOmitEmpty args) eqn:Ho; [|by injection Ha].
    apply step_omitted; [exact Ho|].
    destruct (bool_decide (Kind fv = reflect.Slice)); [|exact Ha].
    by injection Ha. }
  clear Ha.
  destruct (bool_decide (Kind fv = reflect.Slice)) eqn:Hk.
  - apply bool_decide_eq_true in Hk.
    inv_bind H. destruct a as [data included1].
    destruct sideload.
    + inv_bind H. rewrite assignRelationship_ensure in H. simpl in H.
      injection H as <-. apply step_stored.
      by apply (entry_many _ _ true _ _ _ data included1).
    + rewrite assignRelationship_ensure in H. simpl in H.
      injection H as <-. apply step_stored.
      by apply (entry_many _ _ false _ _ _ data included1).
  - apply bool_decide_eq_false in Hk.
    inv_bind H. destruct a as [|].
    + rewrite assignRelationship_ensure in H. simpl in H.
      injection H as <-. apply step_stored. by apply entry_null.
    + inv_bind H. destruct a as [relationship included1].
      destruct sideload.
      * inv_bind H. rewrite assignRelationship_ensure in H. simpl in H.
        injection H as <-. apply step_stored.
        by apply (entry_one _ _ true _ _ _ relationship included1).
      * rewrite assignRelationship_ensure in H. simpl in H.
        injection H as <-. apply step_stored.
        by apply (entry_one _ _ false _ _ _ relationship included1).
Qed.

Lemma relationOmitEmpty_spec role name mods :
  relationOmitEmpty (role :: name :: mods) = true
  ↔ mods !! 0%nat = Some annotationOmitEmpty.
Proof.
  unfold relationOmitEmpty. destruct mods as [|arg mods]; simpl; [done|].
  rewrite bool_decide_eq_true. split; [by intros ->|by intros [= ->]].
Qed.




(** ** Malformed metadata *)

Lemma Split_nonempty tag : (1 ≤ length (Split tag annotationSeperator))%nat.
Proof.
  unfold Split. generalize EmptyString at 1.
  induction tag as [|c tag IH]; intros cur; simpl; [lia|].
  destruct (Ascii.eqb c annotationSeperator); simpl; [lia|apply IH].
Qed.

Lemma visitField_malformed visit hooks sideload tag typ fv st :
  malformedTag tag →
  visitField visit hooks sideload (MkField tag typ fv) st
  = Fail ErrBadJSONAPIStructTag.
Proof.
  intros [Hne Hm]. unfold visitField, roleOf in *. simpl in Hm.
  destruct (decide (tag = EmptyString)) as [|_]; [done|].
  pose proof (Split_nonempty tag) as Hlen.
  set (args := Split tag annotationSeperator) in *.
  destruct (length args <? 1)%nat eqn:E1; [done|].
  destruct Hm as [[Hr Hp]|[[Hr Hp]|Hr]].
  - rewrite (bool_decide_eq_true_2 _ Hr). simpl.
    by rewrite (proj2 (Nat.eqb_neq _ _) Hp).
  - rewrite (bool_decide_eq_false_2 _ Hr). simpl.
    by rewrite (proj2 (Nat.ltb_lt _ _) Hp).
  - destruct (_ || _); [done|].
    unfold recognizedRole in Hr.
    repeat case_decide; tauto.
Qed.

Lemma visitElements_no_Ret visit sideload child l :
  (∀ inc r, visit child inc sideload ≠ Ret r) →
  Some child ∈ l →
  ∀ inc r, visitElements visit sideload l inc ≠ Ret r.
Proof.
  intros Hc. induction l as [|o l IH]; intros Hin inc r H.
  - by apply elem_of_nil in Hin.
  - apply elem_of_cons in Hin. simpl in H.
    destruct Hin as [<-|Hin].
    + inv_bind H. by apply Hc in Ha.
    + destruct o as [m|]; [|by eapply IH].
      inv_bind H. destruct a. inv_bind H. by eapply IH.
Qed.

Lemma forEach_no_Ret {A S} (body : A → S → outcome S) l1 x l2 st :
  (∀ s r, body x s ≠ Ret r) →
  ∀ r, forEach body (l1 ++ x :: l2)%list st ≠ Ret r.
Proof.
  intros Hx r. rewrite forEach_app. intros H. inv_bind H. inv_bind H.
  by apply Hx in Ha0.
Qed.

Lemma visitStruct_no_Ret m :
  hasMalformedField m → ∀ inc sideload r, visitStruct m inc sideload ≠ Ret r.
Proof.
  induction 1 as [hooks fs1 tag typ fv fs2 Hm
                 |hooks fs1 tag typ name mods child fs2 Hs _ IH
                 |hooks fs1 tag typ name mods l child fs2 Hs Hin _ IH];
    intros inc sideload r H; simpl in H; inv_bind H; clear H;
    revert Ha; apply forEach_no_Ret; intros [node included] st' H.
  - by rewrite visitField_malformed in H.
  - rewrite (visitField_relation _ _ _ _ _ _ _ _ _ Hs) in H.
    apply visitRelation_Ret in H.
    inversion H as [Ho Hskip|rel included' He]; subst; [done|].
    inversion He as [Hnil|relationship included1 ? Hk Ht|? ? ? Hk]; subst;
      [done| |done].
    simpl in Ht. by apply IH in Ht.
  - rewrite (visitField_relation _ _ _ _ _ _ _ _ _ Hs) in H.
    apply visitRelation_Ret in H.
    inversion H as [Ho Hskip|rel included' He]; subst.
    + destruct l; [by apply elem_of_nil in Hin|].
      change ((Z.of_nat (length (o :: l)) <? 1) = true) in Hskip.
      apply Z.ltb_lt in Hskip. simpl length in Hskip. lia.
    + inversion He as [? Hk|? ? ? Hk|data included1 ? Hk Hv]; subst;
        [done|done|].
      simpl in Hv. revert Hv. by apply visitElements_no_Ret with child.
Qed.

(** C6.  A model with a malformed tag, on one of its own fields or on a
    field of a model reached through relation fields, never yields a node.
    When the malformed tag sits on a field of the model itself, that field
    is rejected with [ErrBadJSONAPIStructTag] in every state, and the
    traversal returns this error as soon as the fields before it are
    processed without error. *)
Theorem malformed_metadata m :
  hasMalformedField m →
  (∀ included sideload r, visitModelNode (Some m) included sideload ≠ Ret r)
  ∧ (∀ hooks fs1 tag typ fv fs2,
       m = MkModel hooks (fs1 ++ MkField tag typ fv :: fs2)%list →
       malformedTag tag →
       (∀ visit hooks' sideload st,
          visitField visit hooks' sideload (MkField tag typ fv) st
          = Fail ErrBadJSONAPIStructTag)
       ∧ (∀ included sideload st1,
            forEach (visitField visitStruct hooks sideload) fs1
              (newNode, included) = Ret st1 →
            visitModelNode (Some m) included sideload
            = Fail ErrBadJSONAPIStructTag)).
Proof.
  intros Hm. split.
  - intros included sideload r H. unfold visitModelNode in H.
    inv_bind H. revert Ha. by apply visitStruct_no_Ret.
  - intros hooks fs1 tag typ fv fs2 -> Ht. split.
    + intros. by apply visitField_malformed.
    + intros included sideload st1 H1.
      eapply visitStruct_field_fails; [exact H1|].
      by apply visitField_malformed.
Qed.

Lemma malformed_metadata_witness :
  (∀ included sideload r,
     visitModelNode (Some Samples.badAttr) included sideload ≠ Ret r)
  ∧ visitModelNode (Some Samples.badAttr) (Some ∅) true
    = Fail ErrBadJSONAPIStructTag.
Proof.
  assert (malformedTag "attr") as Ht.
  { split; [done|]. right. left. split; [done|]. vm_compute. lia. }
  assert (hasMalformedField Samples.badAttr) as Hm.
  { exact (malformed_here noHooks
             [MkField "primary,things" "string" (Val (VString "a"))]
             "attr" "string" (Val (VString "Foo")) [] Ht). }
  destruct (malformed_metadata Samples.badAttr Hm) as [Hno Hown].
  split; [exact Hno|].
  exact (proj2 (Hown noHooks
                  [MkField "primary,things" "string" (Val (VString "a"))]
                  "attr" "string" (Val (VString "Foo")) [] eq_refl Ht)
           (Some ∅) true _ eq_refl).
Defined.

Example malformed_roles :
  visitModelNode
    (Some (MkModel noHooks
             [ MkField "client-id,cid" "string" (Val (VString "c")) ]))
    None false
  = Fail ErrBadJSONAPIStructTag
  ∧ visitModelNode
      (Some (MkModel noHooks
               [ MkField "attribute,name" "string" (Val (VString "c")) ]))
      None false
    = Fail ErrBadJSONAPIStructTag
  ∧ visitModelNode
      (Some (Samples.post 1
               (Some (MkModel noHooks
                        [ MkField "primary" "int" (Val (VInt 3)) ]))))
      (Some ∅) true
    = Fail ErrBadJSONAPIStructTag.
Proof. repeat split; vm_compute; reflexivity. Qed.

(** ** Dispatch by role and the attribute map *)

Lemma visitField_Ret visit hooks sideload tag typ fv node included st' :
  visitField visit hooks sideload (MkField tag typ fv) (node, included)
  = Ret st' →
  (tag = EmptyString ∧ st' = (node, included))
  ∨ (tag ≠ EmptyString
     ∧ ((roleOf tag = annotationPrimary
         ∧ ∃ node',
             visitPrimary (Split tag annotationSeperator) fv node = Ret node'
             ∧ st' = (node', included))
        ∨ (roleOf tag = annotationClientID
           ∧ st' = (visitClientID typ fv node, included))
        ∨ (roleOf tag = annotationAttribute
           ∧ ∃ node',
               visitAttribute (Split tag annotationSeperator) fv node
               = Ret node'
               ∧ st' = (node', included))
        ∨ (roleOf tag = annotationRelation
           ∧ visitRelation visit hooks sideload
               (Split tag annotationSeperator) fv (node, included)
             = Ret st'))).
Proof.
  unfold visitField, roleOf. intros H.
  destruct (decide (tag = EmptyString)) as [->|Hne]; [left; split; congruence|].
  right. split; [done|].
  destruct (length _ <? 1)%nat; [done|].
  destruct (_ || _); [done|].
  repeat case_decide; try done.
  - left. split; [done|]. inv_bind H. injection H as <-. eauto.
  - right; left. split; [done|]. by injection H as <-.
  - right; right; left. split; [done|]. inv_bind H. injection H as <-. eauto.
  - right; right; right. done.
Qed.

Lemma assignAttribute_ensure name v node :
  assignAttribute name v
    match Attributes node with
    | Some _ => node
    | None => setAttributes (Some ∅) node
    end
  = Ret (setAttributes
           (Some (<[name := v]> (default ∅ (Attributes node)))) node).
Proof.
  unfold assignAttribute. destruct (Attributes node) eqn:E; simpl.
  - by rewrite E.
  - done.
Qed.

(** An attribute step never fails, and it leaves the node with an attribute
    map whether or not it stores a value. *)
Lemma visitAttribute_total args fv node :
  ∃ node', visitAttribute args fv node = Ret node'
           ∧ is_Some (Attributes node').
Proof.
  assert (∀ name v, ∃ node',
            assignAttribute name v
              match Attributes node with
              | Some _ => node
              | None => setAttributes (Some ∅) node
              end = Ret node' ∧ is_Some (Attributes node')) as Hassign.
  { intros. rewrite assignAttribute_ensure. eexists. split; [done|]. by eexists. }
  assert (is_Some (Attributes match Attributes node with
                              | Some _ => node
                              | None => setAttributes (Some ∅) node
                              end)) as Hensure.
  { destruct (Attributes node) eqn:E; simpl; [by rewrite E|by eexists]. }
  unfold visitAttribute.
  destruct fv as [b|b|k|t|[t|]|p|s];
    repeat match goal with
      | |- context [if ?c then _ else _] => destruct c
      | |- context [match ?b with VBool _ => _ | _ => _ end] => destruct b
      end; eauto.
Qed.

Lemma visitField_Attributes visit hooks sideload f st st' :
  visitField visit hooks sideload f st = Ret st' →
  is_Some (Attributes st'.1) ↔ is_Some (Attributes st.1) ∨ isAttributeField f.
Proof.
  destruct f as [tag typ fv], st as [node included]. intros H.
  assert (annotationPrimary ≠ annotationAttribute) as Hp by done.
  assert (annotationClientID ≠ annotationAttribute) as Hc by done.
  assert (annotationRelation ≠ annotationAttribute) as Hr by done.
  apply visitField_Ret in H as [[-> ->]|[Hne H]]; simpl.
  { tauto. }
  destruct H as [[Hrole (node' & Hv & ->)]|[[Hrole ->]
                |[[Hrole (node' & Hv & ->)]|[Hrole Hv]]]]; simpl.
  - unfold visitPrimary in Hv. inv_bind Hv. injection Hv as <-. simpl.
    rewrite Hrole. intuition congruence.
  - unfold visitClientID. rewrite Hrole.
    destruct (decide _); simpl; intuition congruence.
  - destruct (visitAttribute_total (Split tag annotationSeperator) fv node)
      as (node'' & Hv' & Hs). rewrite Hv in Hv'. injection Hv' as ->.
    tauto.
  - apply visitRelation_Ret in Hv. rewrite Hrole.
    inversion Hv; subst; simpl; intuition congruence.
Qed.

Lemma forEach_Attributes visit hooks sideload fs st st' :
  forEach (visitField visit hooks sideload) fs st = Ret st' →
  is_Some (Attributes st'.1)
  ↔ is_Some (Attributes st.1) ∨ Exists isAttributeField fs.
Proof.
  revert st. induction fs as [|f fs IH]; intros st H; simpl in H.
  - injection H as <-. rewrite Exists_nil. tauto.
  - inv_bind H. apply IH in H. apply visitField_Attributes in Ha.
    rewrite Exists_cons. tauto.
Qed.

Lemma finishNode_Attributes hooks node node' :
  finishNode hooks node = Ret node' → Attributes node' = Attributes node.
Proof.
  unfold finishNode. intros H. inv_bind H.
  assert (Attributes a = Attributes node) as <-.
  { destruct (JSONAPILinks hooks); [|by injection Ha as <-].
    inv_bind Ha. by injection Ha as <-. }
  destruct (JSONAPIMeta hooks); by injection H as <-.
Qed.

(** C9, as stated, fails: a model whose only attribute is a zero timestamp,
    or an empty string under [omitempty], gets an empty attribute map, while
    a model without attribute fields gets none. *)
Lemma attributes_map_creation_counterexample :
  visitModelNode (Some Samples.unsetAttributes) None false
  = Ret (Some (MkNode "things" "1" EmptyString (Some ∅) None None None), None)
  ∧ visitModelNode (Some Samples.noAttributes) None false
    = Ret (Some (MkNode "things" "1" EmptyString None None None None), None)
  ∧ MkNode "things" "1" EmptyString (Some ∅) None None None
    ≠ MkNode "things" "1" EmptyString None None None None.
Proof. repeat split; [vm_compute; reflexivity..|discriminate]. Qed.

(** C9, amended.  The attribute map is created when the first field
    annotated as an attribute is processed, before any omission rule is
    looked at: the node of a model has an attribute map exactly when the
    model has a field annotated as an attribute, whether or not any value
    is stored in it. *)
Theorem attributes_map_creation m included sideload node included' :
  visitStruct m included sideload = Ret (node, included') →
  is_Some (Attributes node) ↔ Exists isAttributeField (fieldsOf m).
Proof.
  destruct m as [hooks fields]. simpl. intros H.
  inv_bind H. destruct a as [node0 included0]. inv_bind H.
  injection H as <- <-.
  rewrite (finishNode_Attributes _ _ _ Ha0).
  apply forEach_Attributes in Ha. simpl in Ha. rewrite Ha.
  split; [intros [[? [=]]|]; done|tauto].
Qed.

Lemma attributes_map_creation_witness :
  ∃ node,
    visitStruct
      (MkModel noHooks
         [ MkField "primary,things" "int" (Val (VInt 1));
           MkField "attr,created" "time.Time" (TimeVal (MkTime 0 0 0)) ])
      None false
    = Ret (node, None)
    ∧ Attributes node = Some ∅
    ∧ is_Some (Attributes node).
Proof.
  eexists. split; [vm_compute; reflexivity|]. split; [reflexivity|].
  eapply (attributes_map_creation
            (MkModel noHooks
               [ MkField "primary,things" "int" (Val (VInt 1));
                 MkField "attr,created" "time.Time" (TimeVal (MkTime 0 0 0)) ])
            None false _ None).
  - vm_compute. reflexivity.
  - apply Exists_cons_tl, Exists_cons_hd. split; [done|reflexivity].
Defined.

(** ** Modifiers *)

Lemma attrModifier_unrecognized fl arg :
  ¬ recognizedModifier arg → attrModifier fl arg = fl.
Proof.
  unfold recognizedModifier, attrModifier. intros H.
  repeat case_decide; tauto.
Qed.

Lemma foldl_attrModifier_filter fl mods :
  foldl attrModifier fl mods
  = foldl attrModifier fl (filter recognizedModifier mods).
Proof.
  revert fl. induction mods as [|arg mods IH]; intros fl; [done|].
  simpl. destruct (decide (recognizedModifier arg)) as [Hr|Hr].
  - rewrite filter_cons_True by done. simpl. apply IH.
  - rewrite filter_cons_False by done.
    rewrite attrModifier_unrecognized by done. apply IH.
Qed.

(** C7, as stated, fails: on a relation field [omitempty] is looked for in
    the third part of the tag only.  Placed after another modifier it is not
    honoured, and a nil target is rendered as null data instead of being
    left out. *)
Lemma modifier_accumulation_counterexample :
  annotationOmitEmpty
    ∈ drop 2 (Split "relation,author,x,omitempty" annotationSeperator)
  ∧ relationOmitEmpty (Split "relation,author,x,omitempty" annotationSeperator)
    = false
  ∧ visitField visitStruct noHooks true
      (MkField "relation,author,x,omitempty" "*Author" (StructPtr None))
      (newNode, Some ∅)
    = Ret (MkNode EmptyString EmptyString EmptyString None
             (Some {[ "author" := RelationshipOneNode None None None ]})
             None None, Some ∅)
  ∧ visitField visitStruct noHooks true
      (MkField "relation,author,omitempty" "*Author" (StructPtr None))
      (newNode, Some ∅)
    = Ret (newNode, Some ∅).
Proof.
  repeat split; try (vm_compute; reflexivity).
  simpl. rewrite !elem_of_cons. tauto.
Qed.

(** C7, amended.  On an attribute field every recognized modifier among the
    parts after the output name is accumulated, wherever it stands;
    unrecognized parts change nothing and the attribute step never fails.
    On a relation field only the third part is examined: the flag is set
    exactly when that part is [omitempty]. *)
Theorem modifier_accumulation role name mods :
  let fl := attrModifiers (role :: name :: mods) in
  (omitEmpty fl = true ↔ annotationOmitEmpty ∈ mods)
  ∧ (iso8601 fl = true ↔ annotationISO8601 ∈ mods)
  ∧ (rfc3339 fl = true ↔ annotationRFC3339 ∈ mods)
  ∧ fl = attrModifiers (role :: name :: filter recognizedModifier mods)
  ∧ (∀ fv node,
       ∃ node', visitAttribute (role :: name :: mods) fv node = Ret node')
  ∧ (relationOmitEmpty (role :: name :: mods) = true
     ↔ mods !! 0%nat = Some annotationOmitEmpty).
Proof.
  intros fl.
  destruct (attrModifiers_spec role name mods) as (Ho & Hi & Hr).
  repeat split; try tauto.
  - unfold fl. rewrite !attrModifiers_cons. apply foldl_attrModifier_filter.
  - intros fv node.
    destruct (visitAttribute_total (role :: name :: mods) fv node)
      as (node' & H & _).
    by exists node'.
  - by apply relationOmitEmpty_spec.
  - by apply relationOmitEmpty_spec.
Qed.

(** ** Induction over models *)

Section Model_nested_ind.
Variable P : Model → Prop.

Hypothesis Hmodel :
  ∀ hooks fields, Forall (fieldHolds P) fields → P (MkModel hooks fields).

Lemma Model_nested_ind : ∀ m, P m.
Proof.
  fix IH 1. intros [hooks fields]. apply Hmodel.
  induction fields as [|[tag typ fv] fields IHfields]; constructor; [|done].
  destruct fv as [| | | | |[m|]|[l|]]; simpl; try done.
  induction l as [|[m|] l IHl]; constructor; simpl; done.
Qed.
End Model_nested_ind.

(** ** Embedded mode *)

Lemma visitElements_embedded l :
  Forall (elemHolds (λ m, ∀ node included,
            visitStruct m None false = Ret (node, included) → included = None))
    l →
  ∀ data included,
    visitElements visitStruct false l None = Ret (data, included) →
    included = None
    ∧ Forall2 (λ m full, visitStruct m None false = Ret (full, None))
        (omap id l) data.
Proof.
  induction 1 as [|o l Ho _ IH]; intros data included H; simpl in H.
  - injection H as <- <-. split; [done|constructor].
  - destruct o as [m|]; simpl; [|by apply IH].
    inv_bind H. destruct a as [n inc1]. inv_bind H. destruct a as [ns inc2].
    injection H as <- <-.
    pose proof (Ho _ _ Ha) as ->.
    destruct (IH _ _ Ha0) as [-> HF]. split; [done|].
    by constructor.
Qed.

Lemma visitStruct_embedded m node included :
  visitStruct m None false = Ret (node, included) → included = None.
Proof.
  revert node included. induction m as [hooks fields IH] using Model_nested_ind.
  intros node included H. simpl in H.
  inv_bind H. destruct a as [node0 included0]. inv_bind H.
  injection H as _ <-. clear Ha0.
  assert (∀ st st',
            forEach (visitField visitStruct hooks false) fields st = Ret st' →
            st.2 = None → st'.2 = None) as Hloop.
  { clear Ha. induction IH as [|f fields Hf _ IHfields]; intros st st' H Hst;
      simpl in H.
    - by injection H as <-.
    - inv_bind H. apply (IHfields _ _ H). clear H.
      destruct f as [tag typ fv], st as [n0 inc]. simpl in Hst. subst inc.
      apply visitField_Ret in Ha as [[_ ->]|[_ Ha]]; [done|].
      destruct Ha as [[_ (? & _ & ->)]|[[_ ->]|[[_ (? & _ & ->)]|[_ Ha]]]];
        try done.
      apply visitRelation_Ret in Ha.
      inversion Ha as [|r included' He]; subst; [done|]. simpl.
      inversion He as [|rel inc1 ? Hk Ht Hi|data inc1 ? Hk Hv Hi]; subst;
        [done| |].
      + destruct fv as [| | | |[t|]|[m|]|]; simpl in Ht; try done.
        * by injection Ht as _ <-.
        * by apply Hf in Ht.
      + destruct fv as [| | | | | |[l|]]; simpl in Hv, Hf;
          try by injection Hv as _ <-.
        by apply (visitElements_embedded _ Hf) in Hv as [-> _]. }
  by apply Hloop in Ha.
Qed.

(** C5.  The embedded entry point returns a payload without an included
    list, and the registry pointer stays nil throughout.  In this mode every
    relation field that is set stores the full node of its target, the very
    node the traversal of the target returns: a to-one field stores it as
    data, a to-many field stores the full nodes of its elements that are not
    nil, in order and one per element, so repeated targets are repeated. *)
Theorem embedded_mode :
  (∀ model p,
     MarshalOnePayloadEmbedded model = Ret p →
     OneIncluded p = None
     ∧ visitModelNode model None false = Ret (OneData p, None))
  ∧ (∀ hooks tag typ name mods child node st',
       Split tag annotationSeperator = annotationRelation :: name :: mods →
       visitField visitStruct hooks false
         (MkField tag typ (StructPtr (Some child))) (node, None) = Ret st' →
       ∃ full,
         visitStruct child None false = Ret (full, None)
         ∧ st'.2 = None
         ∧ relationshipAt name st'.1
           = Some (RelationshipOneNode (Some full)
                     (f ← JSONAPIRelationshipLinks hooks; f name)
                     (f ← JSONAPIRelationshipMeta hooks; f name)))
  ∧ (∀ hooks tag typ name mods l node st',
       Split tag annotationSeperator = annotationRelation :: name :: mods →
       l ≠ [] ∨ relationOmitEmpty (annotationRelation :: name :: mods) = false →
       visitField visitStruct hooks false
         (MkField tag typ (StructPtrSlice (Some l))) (node, None) = Ret st' →
       ∃ data,
         Forall2 (λ m full, visitStruct m None false = Ret (full, None))
           (omap id l) data
         ∧ st'.2 = None
         ∧ relationshipAt name st'.1
           = Some (RelationshipManyNode data
                     (f ← JSONAPIRelationshipLinks hooks; f name)
                     (f ← JSONAPIRelationshipMeta hooks; f name))).
Proof.
  split; [|split].
  - intros model p H. unfold MarshalOnePayloadEmbedded in H.
    inv_bind H. destruct a as [root included]. injection H as <-. simpl.
    split; [done|]. rewrite Ha. do 2 f_equal.
    destruct model as [m|]; simpl in Ha; [|by injection Ha as _ <-].
    inv_bind Ha. destruct a as [n inc]. injection Ha as _ <-.
    by apply visitStruct_embedded in Ha0.
  - intros hooks tag typ name mods child node st' Hs H.
    rewrite (visitField_relation _ _ _ _ _ _ _ _ _ Hs) in H.
    apply visitRelation_Ret in H.
    inversion H as [_ Hskip|r included' He]; subst; [done|].
    inversion He as [|full inc1 ? _ Ht Hi|? ? ? Hk]; subst; [done| |done].
    simpl in Ht. pose proof (visitStruct_embedded _ _ _ Ht) as ->.
    exists full. split; [done|]. split; [done|].
    unfold relationshipAt. simpl. apply lookup_insert_eq.
  - intros hooks tag typ name mods l node st' Hs Hl H.
    rewrite (visitField_relation _ _ _ _ _ _ _ _ _ Hs) in H.
    apply visitRelation_Ret in H.
    inversion H as [Ho Hskip|r included' He]; subst.
    { exfalso. destruct Hl as [Hl|Hl]; [|congruence].
      destruct l; [done|].
      change ((Z.of_nat (length (o :: l)) <? 1) = true) in Hskip.
      apply Z.ltb_lt in Hskip. simpl length in Hskip. lia. }
    inversion He as [? Hk|? ? ? Hk|data inc1 ? _ Hv Hi]; subst; [done|done|].
    simpl in Hv.
    apply visitElements_embedded in Hv as [-> HF].
    + exists data. split; [done|]. split; [done|].
      unfold relationshipAt. simpl. apply lookup_insert_eq.
    + apply Forall_forall. intros [m|] _; simpl; [|done].
      intros ? ?. apply visitStruct_embedded.
Qed.

Lemma embedded_mode_witness :
  MarshalOnePayloadEmbedded (Some Samples.shelf) = Ret Samples.shelfPayload
  ∧ OneIncluded Samples.shelfPayload = None
  ∧ visitModelNode (Some Samples.shelf) None false
    = Ret (OneData Samples.shelfPayload, None).
Proof.
  assert (MarshalOnePayloadEmbedded (Some Samples.shelf)
          = Ret Samples.shelfPayload) as Hp by (vm_compute; reflexivity).
  split; [exact Hp|].
  exact (proj1 embedded_mode (Some Samples.shelf) Samples.shelfPayload Hp).
Defined.

(** ** Sideload mode *)

Lemma referencesOnly_mono keys keys' n :
  keys ⊆ keys' → referencesOnly keys n → referencesOnly keys' n.
Proof.
  intros Hsub H name r d Hr Hd. destruct (H name r d Hr Hd). split; [done|].
  by apply Hsub.
Qed.

Lemma referencesOnly_ext keys n n' :
  Relationships n' = Relationships n →
  referencesOnly keys n → referencesOnly keys n'.
Proof.
  intros He H name r d Hr. apply (H name r d).
  unfold relationshipAt in *. by rewrite <- He.
Qed.

Lemma referencesOnly_newNode keys : referencesOnly keys newNode.
Proof. intros name r d Hr. done. Qed.

Lemma referencesOnly_insert keys name r node :
  referencesOnly keys node →
  (∀ d, d ∈ relationshipData r → isReference d ∧ nodeKey d ∈ keys) →
  referencesOnly keys
    (setRelationships
       (Some (<[name := r]> (default ∅ (Relationships node)))) node).
Proof.
  intros Hn Hr name' r' d. unfold relationshipAt. simpl.
  destruct (decide (name = name')) as [->|Hne].
  - rewrite lookup_insert_eq. intros [= <-]. apply Hr.
  - rewrite lookup_insert_ne by done. intros Hl. apply (Hn name' r' d).
    unfold relationshipAt. destruct (Relationships node); simpl in *; [done|].
    by rewrite lookup_empty in Hl.
Qed.

Lemma isReference_toShallowNode n : isReference (toShallowNode n).
Proof. done. Qed.

Lemma registryOK_empty : registryOK ∅.
Proof. intros k n H. by rewrite lookup_empty in H. Qed.

Lemma registryOK_insert inc n :
  registryOK inc →
  referencesOnly (dom (<[nodeKey n := n]> inc)) n →
  registryOK (<[nodeKey n := n]> inc).
Proof.
  intros Hinc Hn k n'. destruct (decide (nodeKey n = k)) as [<-|Hne].
  - rewrite lookup_insert_eq. by intros [= <-].
  - rewrite lookup_insert_ne by done. intros Hl.
    destruct (Hinc _ _ Hl) as [Hk Hr]. split; [done|].
    eapply referencesOnly_mono; [|exact Hr].
    rewrite dom_insert_L. set_solver.
Qed.

Lemma appendIncluded_OK inc n included' :
  registryOK inc → referencesOnly (dom inc) n →
  appendIncluded (Some inc) n = Ret included' →
  sideloadPost inc included' (λ inc', nodeKey n ∈ dom inc').
Proof.
  intros Hinc Hn [= <-]. eexists. split; [done|].
  rewrite dom_insert_L. split_and!.
  - apply registryOK_insert; [done|].
    eapply referencesOnly_mono; [|exact Hn]. rewrite dom_insert_L. set_solver.
  - set_solver.
  - set_solver.
Qed.

Lemma appendIncluded_all_OK data : ∀ inc included',
  registryOK inc → Forall (referencesOnly (dom inc)) data →
  forEach (λ n inc, appendIncluded inc n) data (Some inc) = Ret included' →
  sideloadPost inc included'
    (λ inc', Forall (λ n, nodeKey n ∈ dom inc') data).
Proof.
  induction data as [|n data IH]; intros inc included' Hinc Hdata H;
    simpl in H.
  - injection H as <-. by exists inc.
  - apply Forall_cons in Hdata as [Hn Hdata].
    assert (dom inc ⊆ dom (<[nodeKey n := n]> inc)) as Hsub1
      by (rewrite dom_insert_L; set_solver).
    apply IH in H as (inc2 & -> & Hinc2 & Hsub2 & Hks).
    + exists inc2. split_and!; [done..|set_solver|].
      constructor; [|done]. apply Hsub2. rewrite dom_insert_L. set_solver.
    + apply registryOK_insert; [done|]. by eapply referencesOnly_mono.
    + eapply Forall_impl; [exact Hdata|]. intros ?.
      by apply referencesOnly_mono.
Qed.

Lemma visitElements_sideload l :
  Forall (elemHolds sideloadOK) l →
  ∀ inc data included',
    registryOK inc →
    visitElements visitStruct true l (Some inc) = Ret (data, included') →
    sideloadPost inc included'
      (λ inc', Forall (referencesOnly (dom inc')) data).
Proof.
  induction 1 as [|o l Ho _ IH]; intros inc data included' Hinc H;
    simpl in H.
  - injection H as <- <-. by exists inc.
  - destruct o as [m|]; [|by apply IH].
    inv_bind H. destruct a as [n included1]. inv_bind H.
    destruct a as [ns included2]. injection H as <- <-.
    apply Ho in Ha as (inc1 & -> & Hinc1 & Hsub1 & Hn); [|done].
    apply IH in Ha0 as (inc2 & -> & Hinc2 & Hsub2 & Hns); [|done].
    exists inc2. split_and!; [done..|set_solver|].
    constructor; [|done]. by eapply referencesOnly_mono.
Qed.

Lemma visitPrimary_Relationships args fv node node' :
  visitPrimary args fv node = Ret node' →
  Relationships node' = Relationships node.
Proof. unfold visitPrimary. intros H. inv_bind H. by injection H as <-. Qed.

Lemma visitClientID_Relationships typ fv node :
  Relationships (visitClientID typ fv node) = Relationships node.
Proof. unfold visitClientID. by destruct (decide _). Qed.

Lemma assignAttribute_Relationships name v node node' :
  assignAttribute name v node = Ret node' →
  Relationships node' = Relationships node.
Proof.
  unfold assignAttribute. destruct (Attributes node); [|done].
  by intros [= <-].
Qed.

Lemma visitAttribute_Relationships args fv node node' :
  visitAttribute args fv node = Ret node' →
  Relationships node' = Relationships node.
Proof.
  unfold visitAttribute.
  set (node0 := match Attributes node with
                | Some _ => node
                | None => setAttributes (Some ∅) node
                end).
  assert (Relationships node0 = Relationships node) as <-
    by (unfold node0; by destruct (Attributes node)).
  intros H.
  assert (node' = node0 ∨ ∃ name v, assignAttribute name v node0 = Ret node')
    as [->|(name & v & Hv)]; [|done|by apply assignAttribute_Relationships in Hv].
  destruct fv as [b|b|k|t|[t|]|p|s];
    repeat match type of H with
      | context [if ?c then _ else _] => destruct c
      | context [match ?b with VBool _ => _ | _ => _ end] => destruct b
      end;
    first [ left; by injection H as <- | right; eauto ].
Qed.

Lemma finishNode_Relationships hooks node node' :
  finishNode hooks node = Ret node' →
  Relationships node' = Relationships node.
Proof.
  unfold finishNode. intros H. inv_bind H.
  assert (Relationships a = Relationships node) as <-.
  { destruct (JSONAPILinks hooks); [|by injection Ha as <-].
    inv_bind Ha. by injection Ha as <-. }
  destruct (JSONAPIMeta hooks); by injection H as <-.
Qed.

Lemma visitField_sideload hooks f inc node st' :
  fieldHolds sideloadOK f →
  registryOK inc → referencesOnly (dom inc) node →
  visitField visitStruct hooks true f (node, Some inc) = Ret st' →
  sideloadPost inc st'.2 (λ inc', referencesOnly (dom inc') st'.1).
Proof.
  intros Hf Hinc Hnode H. destruct f as [tag typ fv].
  apply visitField_Ret in H as [[_ ->]|[_ H]]; [by exists inc|].
  destruct H as [[_ (node' & Hv & ->)]|[[_ ->]
                |[[_ (node' & Hv & ->)]|[_ Hv]]]]; simpl.
  - exists inc. split_and!; [done..|].
    eapply referencesOnly_ext; [|exact Hnode].
    by eapply visitPrimary_Relationships.
  - exists inc. split_and!; [done..|].
    eapply referencesOnly_ext; [|exact Hnode].
    apply visitClientID_Relationships.
  - exists inc. split_and!; [done..|].
    eapply referencesOnly_ext; [|exact Hnode].
    by eapply visitAttribute_Relationships.
  - apply visitRelation_Ret in Hv.
    inversion Hv as [|r included' He]; subst; simpl; [by exists inc|].
    inversion He as [|rel included1 ? Hk Ht Hi|data included1 ? Hk Hd Hi];
      subst.
    + exists inc. split_and!; [done..|].
      apply referencesOnly_insert; [done|]. intros d Hd. by apply elem_of_nil in Hd.
    + assert (sideloadPost inc included1
                (λ inc1, referencesOnly (dom inc1) rel))
        as (inc1 & -> & Hinc1 & Hsub1 & Hrel).
      { destruct fv as [| | | |[t|]|[m|]|]; simpl in Ht; try done.
        - injection Ht as <- <-. exists inc. split_and!; [done..|].
          apply referencesOnly_newNode.
        - by apply Hf in Ht. }
      apply appendIncluded_OK in Hi as (inc2 & -> & Hinc2 & Hsub2 & Hkey);
        [|done..].
      exists inc2. split_and!; [done|done|set_solver|].
      apply referencesOnly_insert.
      * eapply referencesOnly_mono; [|exact Hnode]. set_solver.
      * intros d Hd. apply list_elem_of_singleton in Hd as ->.
        split; [apply isReference_toShallowNode|done].
    + assert (sideloadPost inc included1
                (λ inc1, Forall (referencesOnly (dom inc1)) data))
        as (inc1 & -> & Hinc1 & Hsub1 & Hdata).
      { destruct fv as [| | | | | |[l|]]; simpl in Hd;
          try (injection Hd as <- <-; by exists inc).
        by apply (visitElements_sideload _ Hf) in Hd. }
      apply appendIncluded_all_OK in Hi as (inc2 & -> & Hinc2 & Hsub2 & Hkeys);
        [|done..].
      exists inc2. split_and!; [done|done|set_solver|].
      apply referencesOnly_insert.
      * eapply referencesOnly_mono; [|exact Hnode]. set_solver.
      * intros d Hin. simpl in Hin.
        apply list_elem_of_fmap in Hin as (n & -> & Hn).
        split; [apply isReference_toShallowNode|].
        rewrite Forall_forall in Hkeys. exact (Hkeys n Hn).
Qed.

Lemma visitStruct_sideload m : sideloadOK m.
Proof.
  induction m as [hooks fields IH] using Model_nested_ind.
  intros inc node included' Hinc H. simpl in H.
  inv_bind H. destruct a as [node0 included0]. inv_bind H.
  injection H as <- <-.
  assert (∀ node1 inc1 st',
            registryOK inc1 → referencesOnly (dom inc1) node1 →
            forEach (visitField visitStruct hooks true) fields
              (node1, Some inc1) = Ret st' →
            sideloadPost inc1 st'.2 (λ inc', referencesOnly (dom inc') st'.1))
    as Hloop.
  { clear Ha Ha0. induction IH as [|f fields Hf _ IHfields];
      intros node1 inc1 st' Hinc1 Hn1 H; simpl in H.
    - injection H as <-. by exists inc1.
    - apply bind_Ret in H as ([node2 included2] & Hstep & H).
      apply visitField_sideload in Hstep
        as (inc2 & Hst & Hinc2 & Hsub2 & Hn2); [|done..].
      simpl in *. subst included2.
      apply IHfields in H as (inc3 & ? & ? & ? & ?); [|done..].
      exists inc3. split_and!; [done..|set_solver|done]. }
  apply Hloop in Ha as (inc' & Hst & Hinc' & Hsub & Hn);
    [|done|apply referencesOnly_newNode].
  simpl in *. subst included0. exists inc'. split_and!; [done..|].
  eapply referencesOnly_ext; [|exact Hn].
  by eapply finishNode_Relationships.
Qed.

Lemma entriesFor_absent k incl :
  k ∉ nodeKey <$> incl → entriesFor k incl = [].
Proof.
  unfold entriesFor. induction incl as [|n incl IH]; simpl; [done|].
  rewrite not_elem_of_cons. intros [Hne Hk].
  rewrite filter_cons_False by done. by apply IH.
Qed.

Lemma entriesFor_NoDup k incl :
  NoDup (nodeKey <$> incl) →
  (length (entriesFor k incl) ≤ 1)%nat
  ∧ (k ∈ nodeKey <$> incl → length (entriesFor k incl) = 1%nat).
Proof.
  induction incl as [|n incl IH]; simpl; intros Hnd.
  - split; [cbn; lia|]. intros H. by apply elem_of_nil in H.
  - apply NoDup_cons in Hnd as [Hn Hnd]. destruct (IH Hnd) as [Hle Heq].
    unfold entriesFor in *.
    destruct (decide (nodeKey n = k)) as [<-|Hne].
    + rewrite filter_cons_True by done.
      fold (entriesFor (nodeKey n) incl).
      rewrite entriesFor_absent by done. simpl. split; [lia|done].
    + rewrite filter_cons_False by done. split; [done|].
      intros H. apply elem_of_cons in H as [H|H]; [done|]. by apply Heq.
Qed.

Lemma nodeMapValues_keys inc :
  registryOK inc → nodeKey <$> nodeMapValues inc = (map_to_list inc).*1.
Proof.
  intros Hinc. unfold nodeMapValues.
  rewrite <- list_fmap_compose. apply Forall_fmap_ext_1.
  apply Forall_forall. intros [k n] Hin. simpl.
  apply elem_of_map_to_list in Hin. by apply Hinc in Hin as [-> _].
Qed.

Lemma nodeMapValues_entries inc k :
  registryOK inc →
  (length (entriesFor k (nodeMapValues inc)) ≤ 1)%nat
  ∧ (k ∈ dom inc → length (entriesFor k (nodeMapValues inc)) = 1%nat).
Proof.
  intros Hinc.
  destruct (entriesFor_NoDup k (nodeMapValues inc)) as [Hle Heq].
  { rewrite nodeMapValues_keys by done. apply NoDup_fst_map_to_list. }
  split; [done|]. intros Hk. apply Heq.
  rewrite nodeMapValues_keys by done.
  apply elem_of_dom in Hk as [n Hn].
  apply list_elem_of_fmap. exists (k, n). split; [done|].
  by apply elem_of_map_to_list.
Qed.

Lemma marshalMany_loop models : ∀ data inc st',
  registryOK inc →
  (∀ n, Some n ∈ data → referencesOnly (dom inc) n) →
  forEach
    (λ model (acc : list (option Node) * option Registry),
       '(node, included) ← visitModelNode model acc.2 true;
       Ret ((acc.1 ++ [node])%list, included))
    models (data, Some inc) = Ret st' →
  ∃ inc', st'.2 = Some inc' ∧ registryOK inc'
          ∧ ∀ n, Some n ∈ st'.1 → referencesOnly (dom inc') n.
Proof.
  induction models as [|model models IH]; intros data inc st' Hinc Hdata H;
    simpl in H.
  - injection H as <-. by exists inc.
  - apply bind_Ret in H as ([data1 included1] & Hstep & H).
    apply bind_Ret in Hstep as ([node included2] & Hv & Hstep).
    simpl in Hstep. injection Hstep as <- <-.
    destruct model as [m|]; simpl in Hv.
    + apply bind_Ret in Hv as ([node1 included3] & Hv & Hr).
      injection Hr as <- <-.
      apply visitStruct_sideload in Hv as (inc1 & -> & Hinc1 & Hsub & Hn);
        [|done].
      apply IH in H; [done..|].
      intros n Hin. apply elem_of_app in Hin as [Hin|Hin].
      * eapply referencesOnly_mono; [exact Hsub|]. by apply Hdata.
      * apply list_elem_of_singleton in Hin. by injection Hin as ->.
    + injection Hv as <- <-. apply IH in H; [done..|].
      intros n Hin. apply elem_of_app in Hin as [Hin|Hin]; [by apply Hdata|].
      by apply list_elem_of_singleton in Hin.
Qed.

(** C1.  In the payload of [marshalMany] the included list holds at most
    one entry per (type, id) identity.  Every relationship entry of a root
    node and of an included node carries references only, and the resource
    behind each reference has exactly one entry in the included list.
    Registering a second node under an identity already present succeeds
    and replaces the stored node. *)
Theorem sideload_included_unique models p :
  marshalMany models = Ret p →
  ∃ incl,
    ManyIncluded p = Some incl
    ∧ (∀ k, (length (entriesFor k incl) ≤ 1)%nat)
    ∧ (∀ n name r d,
         Some n ∈ ManyData p ∨ n ∈ incl →
         relationshipAt name n = Some r → d ∈ relationshipData r →
         isReference d ∧ length (entriesFor (nodeKey d) incl) = 1%nat)
    ∧ (∀ inc n1 n2,
         nodeKey n1 = nodeKey n2 →
         (included ← appendIncluded (Some inc) n1; appendIncluded included n2)
         = Ret (Some (<[nodeKey n2 := n2]> inc))).
Proof.
  unfold marshalMany. intros H.
  apply bind_Ret in H as ([data included] & Hloop & H). injection H as <-.
  apply marshalMany_loop in Hloop as (inc & Hst & Hinc & Hdata);
    [|apply registryOK_empty|by intros n Hn; apply elem_of_nil in Hn].
  simpl in *. subst included. simpl.
  exists (nodeMapValues inc). split_and!; [done| | |].
  - intros k. by apply nodeMapValues_entries.
  - intros n name r d Hn Hr Hd.
    assert (referencesOnly (dom inc) n) as Hrefs.
    { destruct Hn as [Hn|Hn]; [by apply Hdata|].
      apply list_elem_of_fmap in Hn as ([k n'] & -> & Hin).
      apply elem_of_map_to_list in Hin. by apply Hinc in Hin as [_ ?]. }
    destruct (Hrefs name r d Hr Hd) as [Href Hk]. split; [done|].
    by apply nodeMapValues_entries.
  - intros inc0 n1 n2 Hk. simpl. rewrite Hk. by rewrite insert_insert_eq.
Qed.

Lemma sideload_included_unique_witness :
  marshalMany Samples.twoPosts = Ret Samples.twoPostsPayload
  ∧ ∃ incl,
      ManyIncluded Samples.twoPostsPayload = Some incl
      ∧ isReference Samples.authorRef
      ∧ length (entriesFor ("authors", "7") incl) = 1%nat.
Proof.
  assert (marshalMany Samples.twoPosts = Ret Samples.twoPostsPayload) as Hp
    by (vm_compute; reflexivity).
  split; [exact Hp|].
  destruct (sideload_included_unique _ _ Hp) as (incl & Hi & _ & Hrefs & _).
  exists incl. split; [exact Hi|].
  apply (Hrefs (Samples.postNode "2") "author"
           (RelationshipOneNode (Some Samples.authorRef) None None)
           Samples.authorRef).
  - left. simpl. rewrite !elem_of_cons. tauto.
  - vm_compute. reflexivity.
  - simpl. rewrite elem_of_cons. tauto.
Defined.

(** * Further properties *)

(** ** Untagged fields *)

Lemma forEach_filter_tagged visit hooks sideload fields st :
  forEach (visitField visit hooks sideload) (filter isTagged fields) st
  = forEach (visitField visit hooks sideload) fields st.
Proof.
  revert st. induction fields as [|[tag typ fv] fields IH]; intros st; [done|].
  destruct (decide (isTagged (MkField tag typ fv))) as [Ht|Ht].
  - rewrite filter_cons_True by done. cbn [forEach].
    destruct (visitField _ _ _ _ _); simpl; [apply IH|done|done].
  - rewrite filter_cons_False by done. rewrite IH.
    unfold isTagged in Ht. simpl in Ht. apply dec_stable in Ht. subst tag.
    reflexivity.
Qed.

(** X1.  Fields without a [jsonapi] tag play no part: dropping them from a
    struct changes neither the node nor the error nor the registry. *)
Theorem untagged_fields_skipped hooks fields included sideload :
  visitModelNode (Some (MkModel hooks (filter isTagged fields)))
    included sideload
  = visitModelNode (Some (MkModel hooks fields)) included sideload.
Proof.
  unfold visitModelNode. simpl. by rewrite forEach_filter_tagged.
Qed.

(** ** Attributes of other types *)

Lemma timeAttribute_spec role name mods t :
  let v := timeAttribute (attrModifiers (role :: name :: mods)) t in
  (annotationISO8601 ∈ mods →
   v = AttrOf (Val (VString (Format (UTC t) iso8601TimeFormat))))
  ∧ (annotationRFC3339 ∈ mods →
     v = AttrOf (Val (VString (Format (UTC t) RFC3339))))
  ∧ (annotationISO8601 ∉ mods → annotationRFC3339 ∉ mods →
     v = AttrOf (Val (VInt64 (Unix t)))).
Proof.
  destruct (attrModifiers_spec role name mods) as (_ & Hiso & Hrfc).
  simpl. unfold timeAttribute.
  destruct (iso8601 _), (rfc3339 _); split_and!; try done;
    rewrite ?Format_UTC_layouts; intuition (done || congruence).
Qed.

(** X2.  A [*time.Time] attribute: a nil pointer is stored as null, or left
    out under [omitempty]; a pointer to the zero time is left out only under
    [omitempty] and is otherwise rendered like any other time (in contrast
    with a [time.Time] field, whose zero value is always left out). *)
Theorem time_pointer_attribute visit hooks sideload tag typ p name mods st :
  Split tag annotationSeperator = annotationAttribute :: name :: mods →
  ∃ node,
    visitField visit hooks sideload (MkField tag typ (TimePtr p)) st
    = Ret (node, st.2)
    ∧ match p with
      | None =>
          if decide (annotationOmitEmpty ∈ mods)
          then Attributes node = Some (default ∅ (Attributes st.1))
          else Attributes node
               = Some (<[name := AttrNil]> (default ∅ (Attributes st.1)))
      | Some tm =>
          if decide (IsZero tm = true ∧ annotationOmitEmpty ∈ mods)
          then Attributes node = Some (default ∅ (Attributes st.1))
          else ∃ v,
              Attributes node
              = Some (<[name := v]> (default ∅ (Attributes st.1)))
              ∧ (annotationISO8601 ∈ mods →
                 v = AttrOf (Val (VString (Format (UTC tm) iso8601TimeFormat))))
              ∧ (annotationRFC3339 ∈ mods →
                 v = AttrOf (Val (VString (Format (UTC tm) RFC3339))))
              ∧ (annotationISO8601 ∉ mods → annotationRFC3339 ∉ mods →
                 v = AttrOf (Val (VInt64 (Unix tm))))
      end.
Proof.
  intros Hs. rewrite (visitField_attribute _ _ _ _ _ _ _ _ _ Hs).
  destruct (attrModifiers_spec annotationAttribute name mods) as (Ho & _ & _).
  pose proof (timeAttribute_spec annotationAttribute name mods) as Ht.
  unfold visitAttribute.
  set (fl := attrModifiers _) in *.
  destruct st as [node included]. cbn [fst snd].
  change ((annotationAttribute :: name :: mods) !!! 1%nat) with name.
  destruct p as [tm|].
  - destruct (decide (IsZero tm = true ∧ annotationOmitEmpty ∈ mods))
      as [[Hz Hin]|Hn].
    + rewrite Hz, (proj2 Ho Hin). simpl. eexists. split; [done|].
      by destruct (Attributes node) eqn:E; simpl; rewrite ?E.
    + assert (IsZero tm && omitEmpty fl = false) as ->.
      { apply andb_false_iff.
        destruct (IsZero tm); [|by left]. right.
        destruct (omitEmpty fl); [|done]. exfalso. apply Hn. tauto. }
      rewrite assignAttribute_ensure. simpl. eexists. split; [done|].
      simpl. eexists. split; [done|]. apply Ht.
  - destruct (decide (annotationOmitEmpty ∈ mods)) as [Hin|Hn].
    + rewrite (proj2 Ho Hin). simpl. eexists. split; [done|].
      by destruct (Attributes node) eqn:E; simpl; rewrite ?E.
    + assert (omitEmpty fl = false) as ->.
      { destruct (omitEmpty fl); [|done]. exfalso. apply Hn. tauto. }
      rewrite assignAttribute_ensure. simpl. eexists. by split.
Qed.

(** X3.  An attribute that is not a timestamp is left out exactly when
    [omitempty] is among its modifiers and the value equals the zero value of
    its type; otherwise the key is set to the value itself. *)
Theorem plain_attribute visit hooks sideload tag typ fv name mods st :
  Split tag annotationSeperator = annotationAttribute :: name :: mods →
  isTimeField fv = false →
  ∃ node,
    visitField visit hooks sideload (MkField tag typ fv) st = Ret (node, st.2)
    ∧ Attributes node
      = Some (if decide (annotationOmitEmpty ∈ mods ∧ isZeroValue fv = true)
              then default ∅ (Attributes st.1)
              else <[name := AttrOf fv]> (default ∅ (Attributes st.1))).
Proof.
  intros Hs Hfv. rewrite (visitField_attribute _ _ _ _ _ _ _ _ _ Hs).
  destruct (attrModifiers_spec annotationAttribute name mods) as (Ho & _ & _).
  unfold visitAttribute.
  set (fl := attrModifiers _) in *.
  destruct st as [node included]. cbn [fst snd].
  change ((annotationAttribute :: name :: mods) !!! 1%nat) with name.
  assert (∀ n0 : Node,
            match fv with
            | Val (VString strAttr) =>
                assignAttribute name (AttrOf (Val (VString strAttr))) n0
            | _ => assignAttribute name (AttrOf fv) n0
            end = assignAttribute name (AttrOf fv) n0) as Hassign.
  { intros n0. by destruct fv as [[]| | | | | |]. }
  destruct (decide (annotationOmitEmpty ∈ mods ∧ isZeroValue fv = true))
    as [[Hin Hz]|Hn].
  - assert (omitEmpty fl && isZeroValue fv = true) as Hc
      by (rewrite Hz, (proj2 Ho Hin); done).
    exists (match Attributes node with
            | Some _ => node
            | None => setAttributes (Some ∅) node
            end).
    split.
    + destruct fv; try done; simpl in *; by rewrite Hc.
    + by destruct (Attributes node) eqn:E; simpl; rewrite ?E.
  - assert (omitEmpty fl && isZeroValue fv = false) as Hc.
    { apply andb_false_iff. destruct (omitEmpty fl); [|by left]. right.
      destruct (isZeroValue fv); [|done]. exfalso. apply Hn. tauto. }
    exists (setAttributes
              (Some (<[name := AttrOf fv]> (default ∅ (Attributes node))))
              node).
    split; [|done].
    destruct fv; try done;
      by rewrite Hc, ?Hassign, assignAttribute_ensure.
Qed.

(** ** Relationship links and meta *)

(** X4.  A relation field that is not left out stores an entry under its
    output name.  For a nil pointer the entry has null data and neither
    links nor meta; in every other case, to-one or to-many, sideloaded or
    embedded, it carries the links and the meta the owning model supplies for
    that relationship name. *)
Theorem relationship_links_meta visit hooks sideload tag typ fv name mods
    node included st' :
  Split tag annotationSeperator = annotationRelation :: name :: mods →
  visitField visit hooks sideload (MkField tag typ fv) (node, included)
  = Ret st' →
  st' = (node, included)
  ∨ ∃ r,
      relationshipAt name st'.1 = Some r
      ∧ if isNilPointer fv
        then r = RelationshipOneNode None None None
        else relationshipLinks r
             = (f ← JSONAPIRelationshipLinks hooks; f name)
             ∧ relationshipMeta r
               = (f ← JSONAPIRelationshipMeta hooks; f name).
Proof.
  intros Hs H. rewrite (visitField_relation _ _ _ _ _ _ _ _ _ Hs) in H.
  apply visitRelation_Ret in H.
  inversion H as [|r included' He]; subst; [by left|]. right.
  exists r. split; [unfold relationshipAt; simpl; apply lookup_insert_eq|].
  inversion He as [Hnil Hk|rel inc1 ? Hk Ht|data inc1 ? Hk Hd]; subst.
  - destruct fv as [| | | |[|]|[|]|[|]]; simpl in *; try done.
  - destruct fv as [| | | |[|]|[|]|[|]]; simpl in *; try done.
  - destruct fv as [| | | |[|]|[|]|[|]]; simpl in *; try done.
Qed.

(** X19.  A [relation] tag on a field of a predeclared type, on a pointer to
    one, or on a [time.Time] value makes the traversal panic, in either mode
    and with or without [omitempty]. *)
Theorem relation_on_value_field_panics visit hooks sideload tag typ fv name
    mods st :
  Split tag annotationSeperator = annotationRelation :: name :: mods →
  (∃ b, fv = Val b ∨ fv = PtrTo b) ∨ (∃ t, fv = TimeVal t) →
  visitField visit hooks sideload (MkField tag typ fv) st = Panic.
Proof.
  intros Hs Hfv. rewrite (visitField_relation _ _ _ _ _ _ _ _ _ Hs).
  unfold visitRelation. destruct st as [node included].
  destruct (relationOmitEmpty _);
    destruct Hfv as [(b & [-> | ->])|(t & ->)]; by destruct b || done.
Qed.

(** ** Frames of the field steps *)

Lemma visitAttribute_frame args fv node node' :
  visitAttribute args fv node = Ret node' →
  node' = setAttributes (Attributes node') node.
Proof.
  unfold visitAttribute.
  set (node0 := match Attributes node with
                | Some _ => node
                | None => setAttributes (Some ∅) node
                end).
  assert (node0 = setAttributes (Attributes node0) node) as H0.
  { unfold node0. destruct node as [? ? ? [|] ? ? ?]; done. }
  assert (∀ name v, assignAttribute name v node0 = Ret node' →
                    node' = setAttributes (Attributes node') node) as Hassign.
  { intros name v. unfold assignAttribute.
    destruct (Attributes node0); [|done]. intros [= <-]. simpl.
    rewrite H0. done. }
  intros H.
  destruct fv as [b|b|k|t|[t|]|p|s];
    repeat match type of H with
      | context [if ?c then _ else _] => destruct c
      | context [match ?b with VBool _ => _ | _ => _ end] => destruct b
      end;
    first [ by injection H as <- | by eapply Hassign ].
Qed.

Lemma visitField_frame visit hooks sideload f node included node' included' :
  visitField visit hooks sideload f (node, included) = Ret (node', included') →
  Links node' = Links node ∧ Meta node' = Meta node
  ∧ (¬ hasRole annotationPrimary f →
     ID node' = ID node ∧ Type_ node' = Type_ node)
  ∧ (¬ hasRole annotationClientID f → ClientID node' = ClientID node)
  ∧ (¬ hasRole annotationAttribute f → Attributes node' = Attributes node)
  ∧ (¬ hasRole annotationRelation f →
     Relationships node' = Relationships node ∧ included' = included).
Proof.
  destruct f as [tag typ fv]. unfold hasRole, isTagged. simpl. intros H.
  apply visitField_Ret in H as [[-> [= -> ->]]|[Hne H]]; [done|].
  destruct H as [[Hrole (n & Hv & [= <- ->])]|[[Hrole [= -> ->]]
                |[[Hrole (n & Hv & [= <- ->])]|[Hrole Hv]]]].
  - unfold visitPrimary in Hv. inv_bind Hv. injection Hv as <-. simpl.
    split_and!; try done. intros Hn. exfalso. by apply Hn.
  - unfold visitClientID. destruct (decide _); simpl; split_and!; try done.
    intros Hn. exfalso. by apply Hn.
  - apply visitAttribute_frame in Hv. rewrite Hv. simpl.
    split_and!; try done. intros Hn. exfalso. by apply Hn.
  - apply visitRelation_Ret in Hv.
    inversion Hv; subst; simpl; split_and!; try done;
      intros Hn; exfalso; by apply Hn.
Qed.

Lemma forEach_frame visit hooks sideload fields : ∀ node included node' included',
  forEach (visitField visit hooks sideload) fields (node, included)
  = Ret (node', included') →
  Links node' = Links node ∧ Meta node' = Meta node
  ∧ (Forall (λ f, ¬ hasRole annotationPrimary f) fields →
     ID node' = ID node ∧ Type_ node' = Type_ node)
  ∧ (Forall (λ f, ¬ hasRole annotationClientID f) fields →
     ClientID node' = ClientID node)
  ∧ (Forall (λ f, ¬ hasRole annotationRelation f) fields →
     Relationships node' = Relationships node ∧ included' = included).
Proof.
  induction fields as [|f fields IH]; intros node included node' included' H;
    simpl in H.
  - by injection H as <- <-.
  - apply bind_Ret in H as ([node1 included1] & Hf & H).
    apply visitField_frame in Hf as (Hl & Hm & Hp & Hc & _ & Hr).
    apply IH in H as (Hl' & Hm' & Hp' & Hc' & Hr').
    split_and!; try congruence.
    + intros [Hf HF]%Forall_cons. destruct (Hp Hf), (Hp' HF).
      split; congruence.
    + intros [Hf HF]%Forall_cons. rewrite (Hc' HF). by apply Hc.
    + intros [Hf HF]%Forall_cons. destruct (Hr Hf), (Hr' HF).
      split; congruence.
Qed.

Lemma finishNode_Ret hooks node node' :
  finishNode hooks node = Ret node' →
  node' = setMeta (if JSONAPIMeta hooks is Some meta then Some meta
                   else Meta node)
            (setLinks (if JSONAPILinks hooks is Some jl then Some jl
                       else Links node) node)
  ∧ ∀ jl, JSONAPILinks hooks = Some jl → validate jl = Ret ().
Proof.
  unfold finishNode. intros H. inv_bind H.
  destruct (JSONAPILinks hooks) as [jl|].
  - inv_bind Ha. injection Ha as <-. destruct a0.
    split; [|by intros ? [= <-]].
    destruct (JSONAPIMeta hooks); by injection H as <-.
  - injection Ha as <-. split; [|done].
    destruct (JSONAPIMeta hooks); injection H as <-; by destruct node.
Qed.

Lemma visitStruct_finish hooks fields included sideload node included' :
  visitStruct (MkModel hooks fields) included sideload = Ret (node, included') →
  ∃ node0,
    forEach (visitField visitStruct hooks sideload) fields (newNode, included)
    = Ret (node0, included')
    ∧ finishNode hooks node0 = Ret node.
Proof.
  simpl. intros H.
  apply bind_Ret in H as ([node0 included0] & Hloop & H). simpl in H.
  inv_bind H. injection H as <- <-. eauto.
Qed.

(** X5.  The links and the meta of a returned node are those its model
    supplies (none when the capability is missing), and the links passed
    validation; no field sets them. *)
Theorem node_links_and_meta m included sideload node included' :
  visitStruct m included sideload = Ret (node, included') →
  Links node = JSONAPILinks (hooksOf m)
  ∧ Meta node = JSONAPIMeta (hooksOf m)
  ∧ ∀ jl, JSONAPILinks (hooksOf m) = Some jl → validate jl = Ret ().
Proof.
  destruct m as [hooks fields]. simpl. intros H.
  apply visitStruct_finish in H as (node0 & Hloop & Ha).
  apply forEach_frame in Hloop as (Hl & Hm & _). simpl in Hl, Hm.
  apply finishNode_Ret in Ha as [-> Hv]. simpl.
  rewrite Hl, Hm. split_and!; [|by destruct (JSONAPIMeta hooks)|done].
  by destruct (JSONAPILinks hooks).
Qed.

(** X6.  A model whose links fail validation never yields a node, and the
    validation error is the result once all fields are processed without
    error. *)
Theorem invalid_links_reject_node hooks fields jl e included sideload :
  JSONAPILinks hooks = Some jl →
  validate jl = Fail e →
  (∀ r, visitModelNode (Some (MkModel hooks fields)) included sideload ≠ Ret r)
  ∧ (∀ st,
       forEach (visitField visitStruct hooks sideload) fields
         (newNode, included) = Ret st →
       visitModelNode (Some (MkModel hooks fields)) included sideload
       = Fail e).
Proof.
  intros Hjl He. split.
  - intros r H. unfold visitModelNode in H.
    apply bind_Ret in H as ([node included'] & H & _).
    apply visitStruct_finish in H as (node0 & _ & Ha).
    apply finishNode_Ret in Ha as [_ Hv].
    specialize (Hv jl Hjl). congruence.
  - intros [node0 included0] Hloop. unfold visitModelNode. simpl.
    rewrite Hloop. simpl. unfold finishNode. rewrite Hjl, He. done.
Qed.

(** X7.  A struct without a [primary] field is not rejected for that: its
    node has the empty id and the empty type.  Likewise the client id is
    empty unless a [client-id] field is present. *)
Theorem identity_fields_need_their_role m included sideload node included' :
  visitStruct m included sideload = Ret (node, included') →
  (Forall (λ f, ¬ hasRole annotationPrimary f) (fieldsOf m) →
   ID node = EmptyString ∧ Type_ node = EmptyString)
  ∧ (Forall (λ f, ¬ hasRole annotationClientID f) (fieldsOf m) →
     ClientID node = EmptyString).
Proof.
  destruct m as [hooks fields]. simpl. intros H.
  apply visitStruct_finish in H as (node0 & Hloop & Ha).
  apply forEach_frame in Hloop as (_ & _ & Hp & Hc & _).
  apply finishNode_Ret in Ha as [-> _]. simpl. split.
  - intros HF. by destruct (Hp HF).
  - intros HF. by rewrite (Hc HF).
Qed.

Lemma visitAttribute_keys args fv node node' k :
  visitAttribute args fv node = Ret node' →
  is_Some (attributeAt k node') →
  is_Some (attributeAt k node) ∨ k = args !!! 1%nat.
Proof.
  unfold visitAttribute.
  set (node0 := match Attributes node with
                | Some _ => node
                | None => setAttributes (Some ∅) node
                end).
  assert (is_Some (attributeAt k node0) → is_Some (attributeAt k node)) as H0.
  { unfold node0, attributeAt. destruct (Attributes node) eqn:E; simpl;
      rewrite ?E; simpl; [done|]. rewrite lookup_empty. by intros [? [=]]. }
  assert (∀ v, assignAttribute (args !!! 1%nat) v node0 = Ret node' →
               is_Some (attributeAt k node') →
               is_Some (attributeAt k node) ∨ k = args !!! 1%nat) as Hassign.
  { intros v. unfold assignAttribute.
    destruct (Attributes node0) as [m|] eqn:E; [|done]. intros [= <-].
    unfold attributeAt at 1. simpl.
    destruct (decide (k = args !!! 1%nat)) as [|Hne]; [by right|].
    rewrite lookup_insert_ne by done. intros Hk. left. apply H0.
    unfold attributeAt. by rewrite E. }
  intros H Hk.
  destruct fv as [b|b|k0|t|[t|]|p|s];
    repeat match type of H with
      | context [if ?c then _ else _] => destruct c
      | context [match ?b with VBool _ => _ | _ => _ end] => destruct b
      end;
    first [ injection H as <-; left; by apply H0 | by eapply Hassign ].
Qed.

Lemma visitField_keys visit hooks sideload f node included node' included' k :
  visitField visit hooks sideload f (node, included) = Ret (node', included') →
  (is_Some (attributeAt k node') →
   is_Some (attributeAt k node)
   ∨ hasRole annotationAttribute f ∧ nameOf (tagOf f) = k)
  ∧ (is_Some (relationshipAt k node') →
     is_Some (relationshipAt k node)
     ∨ hasRole annotationRelation f ∧ nameOf (tagOf f) = k).
Proof.
  intros H. pose proof H as Hframe.
  apply visitField_frame in Hframe as (_ & _ & _ & _ & Ha & Hr).
  destruct f as [tag typ fv]. unfold hasRole, isTagged, nameOf in *.
  simpl in *.
  assert (annotationPrimary ≠ annotationAttribute) by done.
  assert (annotationClientID ≠ annotationAttribute) by done.
  assert (annotationRelation ≠ annotationAttribute) by done.
  assert (annotationPrimary ≠ annotationRelation) by done.
  assert (annotationClientID ≠ annotationRelation) by done.
  apply visitField_Ret in H as [[-> [= -> ->]]|[Hne H]]; [tauto|].
  destruct H as [[Hrole (n & Hv & [= <- ->])]|[[Hrole [= -> ->]]
                |[[Hrole (n & Hv & [= <- ->])]|[Hrole Hv]]]].
  - unfold attributeAt, relationshipAt.
    rewrite Ha, (proj1 (Hr ltac:(intros [_ ?]; congruence)));
      [tauto|intros [_ ?]; congruence].
  - unfold attributeAt, relationshipAt.
    rewrite Ha, (proj1 (Hr ltac:(intros [_ ?]; congruence)));
      [tauto|intros [_ ?]; congruence].
  - split.
    + intros Hk.
      destruct (visitAttribute_keys _ _ _ _ k Hv Hk) as [?|Heq]; [by left|].
      right. by rewrite Heq.
    + unfold relationshipAt.
      rewrite (proj1 (Hr ltac:(intros [_ ?]; congruence))). tauto.
  - split.
    + unfold attributeAt. rewrite Ha by (intros [_ ?]; congruence). tauto.
    + apply visitRelation_Ret in Hv.
      inversion Hv as [|r inc2 He]; subst; [tauto|].
      unfold relationshipAt at 1. simpl.
      destruct (decide (k = Split tag annotationSeperator !!! 1%nat))
        as [->|Hne']; [by right|].
      rewrite lookup_insert_ne by done. intros Hk. left.
      unfold relationshipAt. destruct (Relationships node); [done|].
      simpl in Hk. rewrite lookup_empty in Hk. by destruct Hk.
Qed.

(** X8.  Every key of the attribute map of a node is the output name of an
    attribute field of its model, and every key of the relationship map the
    output name of a relation field. *)
Theorem map_keys_come_from_fields m included sideload node included' k :
  visitStruct m included sideload = Ret (node, included') →
  (is_Some (attributeAt k node) →
   Exists (λ f, hasRole annotationAttribute f ∧ nameOf (tagOf f) = k)
     (fieldsOf m))
  ∧ (is_Some (relationshipAt k node) →
     Exists (λ f, hasRole annotationRelation f ∧ nameOf (tagOf f) = k)
       (fieldsOf m)).
Proof.
  destruct m as [hooks fields]. intros H.
  apply visitStruct_finish in H as (node0 & Hloop & Ha).
  apply finishNode_Ret in Ha as [-> _]. simpl.
  change (attributeAt k (setMeta _ (setLinks _ node0)))
    with (attributeAt k node0).
  change (relationshipAt k (setMeta _ (setLinks _ node0)))
    with (relationshipAt k node0).
  assert (∀ n inc,
            forEach (visitField visitStruct hooks sideload) fields (n, inc)
            = Ret (node0, included') →
            (is_Some (attributeAt k node0) →
             is_Some (attributeAt k n)
             ∨ Exists (λ f, hasRole annotationAttribute f
                            ∧ nameOf (tagOf f) = k) fields)
            ∧ (is_Some (relationshipAt k node0) →
               is_Some (relationshipAt k n)
               ∨ Exists (λ f, hasRole annotationRelation f
                              ∧ nameOf (tagOf f) = k) fields)) as Hinv.
  { clear Hloop. induction fields as [|f fields IH]; intros n inc H;
      simpl in H.
    - injection H as <- <-. tauto.
    - apply bind_Ret in H as ([n1 inc1] & Hf & H).
      apply IH in H as [HA HR].
      apply (visitField_keys _ _ _ _ _ _ _ _ k) in Hf as [HA' HR'].
      rewrite !Exists_cons. tauto. }
  apply Hinv in Hloop as [HA HR]. split.
  - intros Hk. destruct (HA Hk) as [[? [=]]|]; done.
  - intros Hk. destruct (HR Hk) as [[? [=]]|]; done.
Qed.

(** ** Independence of the mode *)

Lemma visitAttribute_Attributes args fv n1 n2 n1' n2' :
  Attributes n1 = Attributes n2 →
  visitAttribute args fv n1 = Ret n1' →
  visitAttribute args fv n2 = Ret n2' →
  Attributes n1' = Attributes n2'.
Proof.
  destruct n1 as [t1 i1 c1 a1 r1 l1 m1], n2 as [t2 i2 c2 a2 r2 l2 m2].
  simpl. intros <-. unfold visitAttribute, assignAttribute. simpl.
  intros H1 H2.
  destruct a1 as [a1|]; simpl in *;
    destruct fv as [b|b|k|t|[t|]|p|s];
    repeat match type of H1 with
      | context [if ?c then _ else _] => destruct c
      | context [match ?b with VBool _ => _ | _ => _ end] => destruct b
      end;
    simpl in *; injection H1 as <-; injection H2 as <-; done.
Qed.

Lemma visitField_core v1 v2 hooks sl1 sl2 f n1 n2 i1 i2 n1' n2' i1' i2' :
  visitField v1 hooks sl1 f (n1, i1) = Ret (n1', i1') →
  visitField v2 hooks sl2 f (n2, i2) = Ret (n2', i2') →
  core n1 = core n2 → core n1' = core n2'.
Proof.
  intros H1 H2 Hc.
  pose proof (visitField_frame _ _ _ _ _ _ _ _ H1)
    as (Hl1 & Hm1 & Hp1 & Hc1 & Ha1 & _).
  pose proof (visitField_frame _ _ _ _ _ _ _ _ H2)
    as (Hl2 & Hm2 & Hp2 & Hc2 & Ha2 & _).
  destruct f as [tag typ fv]. unfold hasRole, isTagged in *. simpl in *.
  assert (annotationPrimary ≠ annotationAttribute) by done.
  assert (annotationClientID ≠ annotationAttribute) by done.
  assert (annotationRelation ≠ annotationAttribute) by done.
  assert (annotationPrimary ≠ annotationRelation) by done.
  assert (annotationClientID ≠ annotationRelation) by done.
  assert (annotationPrimary ≠ annotationClientID) by done.
  unfold core in *. injection Hc as Ht Hi Hcl Hat Hli Hme.
  apply visitField_Ret in H1 as [[-> [= -> ->]]|[Hne H1]].
  { apply visitField_Ret in H2 as [[_ [= -> ->]]|[? _]]; [|done].
    congruence. }
  apply visitField_Ret in H2 as [[? _]|[_ H2]]; [done|].
  destruct H1 as [[Hrole (n & Hv1 & [= <- ->])]|[[Hrole [= -> ->]]
                 |[[Hrole (n & Hv1 & [= <- ->])]|[Hrole Hv1]]]];
    destruct H2 as [[Hrole' (n' & Hv2 & [= <- ->])]|[[Hrole' [= -> ->]]
                   |[[Hrole' (n' & Hv2 & [= <- ->])]|[Hrole' Hv2]]]];
    try congruence.
  - unfold visitPrimary in Hv1, Hv2. inv_bind Hv1. inv_bind Hv2.
    injection Hv1 as <-. injection Hv2 as <-. simpl. congruence.
  - rewrite Hl1, Hm1, Hl2, Hm2.
    rewrite (proj1 (Hp1 ltac:(intros [_ ?]; congruence))),
      (proj2 (Hp1 ltac:(intros [_ ?]; congruence))),
      (proj1 (Hp2 ltac:(intros [_ ?]; congruence))),
      (proj2 (Hp2 ltac:(intros [_ ?]; congruence))).
    rewrite Ha1, Ha2 by (intros [_ ?]; congruence).
    unfold visitClientID.
    destruct (decide _); simpl; congruence.
  - rewrite (visitAttribute_Attributes _ _ _ _ _ _ Hat Hv1 Hv2).
    rewrite Hl1, Hm1, Hl2, Hm2.
    rewrite (proj1 (Hp1 ltac:(intros [_ ?]; congruence))),
      (proj2 (Hp1 ltac:(intros [_ ?]; congruence))),
      (proj1 (Hp2 ltac:(intros [_ ?]; congruence))),
      (proj2 (Hp2 ltac:(intros [_ ?]; congruence))).
    rewrite Hc1, Hc2 by (intros [_ ?]; congruence). congruence.
  - rewrite Hl1, Hm1, Hl2, Hm2.
    rewrite (proj1 (Hp1 ltac:(intros [_ ?]; congruence))),
      (proj2 (Hp1 ltac:(intros [_ ?]; congruence))),
      (proj1 (Hp2 ltac:(intros [_ ?]; congruence))),
      (proj2 (Hp2 ltac:(intros [_ ?]; congruence))).
    rewrite Hc1, Hc2 by (intros [_ ?]; congruence).
    rewrite Ha1, Ha2 by (intros [_ ?]; congruence). congruence.
Qed.

Lemma forEach_core v1 v2 hooks sl1 sl2 fields :
  ∀ n1 n2 i1 i2 n1' n2' i1' i2',
    forEach (visitField v1 hooks sl1) fields (n1, i1) = Ret (n1', i1') →
    forEach (visitField v2 hooks sl2) fields (n2, i2) = Ret (n2', i2') →
    core n1 = core n2 → core n1' = core n2'.
Proof.
  induction fields as [|f fields IH]; intros n1 n2 i1 i2 n1' n2' i1' i2' H1 H2;
    simpl in H1, H2.
  - injection H1 as <- <-. by injection H2 as <- <-.
  - apply bind_Ret in H1 as ([a1 b1] & Hf1 & H1).
    apply bind_Ret in H2 as ([a2 b2] & Hf2 & H2).
    intros Hc. eapply IH; [exact H1|exact H2|].
    by eapply visitField_core.
Qed.

(** X9.  What a node says of the resource itself (type, id, client id,
    attributes, links, meta) depends neither on the sideload flag nor on
    the registry: the two modes differ in the relationships only. *)
Theorem node_core_independent_of_mode m inc1 inc2 sl1 sl2 n1 n2 inc1' inc2' :
  visitStruct m inc1 sl1 = Ret (n1, inc1') →
  visitStruct m inc2 sl2 = Ret (n2, inc2') →
  core n1 = core n2.
Proof.
  destruct m as [hooks fields]. intros H1 H2.
  apply visitStruct_finish in H1 as (a1 & Hloop1 & Hf1).
  apply visitStruct_finish in H2 as (a2 & Hloop2 & Hf2).
  pose proof (forEach_core _ _ _ _ _ _ _ _ _ _ _ _ _ _ Hloop1 Hloop2 eq_refl)
    as Hc.
  apply finishNode_Ret in Hf1 as [-> _]. apply finishNode_Ret in Hf2 as [-> _].
  unfold core in *. simpl. injection Hc as -> -> -> -> -> ->. done.
Qed.

(** ** Payload assembly *)

(** X10.  Marshaling a collection of one model gives the data and the
    included list of marshaling that model alone. *)
Theorem marshalMany_singleton model :
  marshalMany [model]
  = p ← marshalOne model; Ret (MkManyPayload [OneData p] (OneIncluded p)).
Proof.
  unfold marshalMany, marshalOne. simpl.
  destruct (visitModelNode model (Some ∅) true) as [[node included]| |]; done.
Qed.

Lemma marshalMany_loop_shape models : ∀ data included data' included',
  forEach
    (λ model (acc : list (option Node) * option Registry),
       '(node, included) ← visitModelNode model acc.2 true;
       Ret ((acc.1 ++ [node])%list, included))
    models (data, included) = Ret (data', included') →
  ∃ nodes,
    data' = (data ++ nodes)%list
    ∧ Forall2 (λ model node, model = None ↔ node = None) models nodes.
Proof.
  induction models as [|model models IH]; intros data included data' included' H;
    simpl in H.
  - injection H as <- <-. exists []. by rewrite app_nil_r.
  - apply bind_Ret in H as ([data1 included1] & Hstep & H).
    apply bind_Ret in Hstep as ([node included2] & Hv & Hstep).
    simpl in Hstep. injection Hstep as <- <-.
    apply IH in H as (nodes & -> & HF).
    exists (node :: nodes). split; [by rewrite <- app_assoc|].
    constructor; [|done].
    destruct model as [m|]; simpl in Hv.
    + inv_bind Hv. destruct a. injection Hv as <- _. done.
    + by injection Hv as <- _.
Qed.

(** X11.  The data of a many-payload has one entry per model, in order; a
    nil model gives a nil entry at its position and is not skipped; the
    included list is always present. *)
Theorem marshalMany_data_shape models p :
  marshalMany models = Ret p →
  length (ManyData p) = length models
  ∧ Forall2 (λ model node, model = None ↔ node = None) models (ManyData p)
  ∧ ∃ incl, ManyIncluded p = Some incl.
Proof.
  unfold marshalMany. intros H.
  apply bind_Ret in H as ([data included] & Hloop & H). injection H as <-.
  apply marshalMany_loop_shape in Hloop as (nodes & -> & HF). simpl.
  split_and!; [|done|by eexists].
  symmetry. by eapply Forall2_length.
Qed.

Lemma marshalMany_loop_no_Ret models m : ∀ acc r,
  Some m ∈ models →
  (∀ inc r, visitStruct m inc true ≠ Ret r) →
  forEach
    (λ model (acc : list (option Node) * option Registry),
       '(node, included) ← visitModelNode model acc.2 true;
       Ret ((acc.1 ++ [node])%list, included))
    models acc ≠ Ret r.
Proof.
  induction models as [|model models IH]; intros acc r Hin Hm H.
  - by apply elem_of_nil in Hin.
  - simpl in H. apply bind_Ret in H as (acc1 & Hstep & H).
    apply elem_of_cons in Hin as [<-|Hin]; [|by eapply IH].
    apply bind_Ret in Hstep as ([node included2] & Hv & _).
    simpl in Hv. inv_bind Hv. by apply Hm in Ha.
Qed.

(** X12.  No partial document: a model with a malformed tag at any depth
    makes [marshalMany], [marshalOne] and [MarshalOnePayloadEmbedded] return
    no payload, wherever it stands in the collection. *)
Theorem no_partial_document m :
  hasMalformedField m →
  (∀ models p, Some m ∈ models → marshalMany models ≠ Ret p)
  ∧ (∀ p, marshalOne (Some m) ≠ Ret p)
  ∧ (∀ p, MarshalOnePayloadEmbedded (Some m) ≠ Ret p).
Proof.
  intros Hm. pose proof (visitStruct_no_Ret m Hm) as Hno. split_and!.
  - intros models p Hin H. unfold marshalMany in H.
    apply bind_Ret in H as (acc & Hloop & _). revert Hloop.
    apply marshalMany_loop_no_Ret with m; [done|]. intros. apply Hno.
  - intros p H. unfold marshalOne in H.
    apply bind_Ret in H as (r & Hv & _). simpl in Hv. inv_bind Hv.
    by apply Hno in Ha.
  - intros p H. unfold MarshalOnePayloadEmbedded in H.
    apply bind_Ret in H as (r & Hv & _). simpl in Hv. inv_bind Hv.
    by apply Hno in Ha.
Qed.

(** X13.  The first field that fails decides the result: the fields after
    it, the links validation and the meta are not consulted. *)
Theorem first_field_error_wins hooks fs1 f included sideload st1 e :
  forEach (visitField visitStruct hooks sideload) fs1 (newNode, included)
  = Ret st1 →
  visitField visitStruct hooks sideload f st1 = Fail e →
  ∀ fs2,
    visitModelNode (Some (MkModel hooks (fs1 ++ f :: fs2)%list))
      included sideload
    = Fail e.
Proof. intros H1 Hf fs2. by eapply visitStruct_field_fails. Qed.

Section Marshal_properties.
Variable convertToSliceInterface : FieldValue → outcome (list (option Model)).

(** X14.  [Marshal] rejects with [ErrUnexpectedType] every argument that is
    neither a slice nor a pointer to a struct that is set: values of
    predeclared types, structs passed by value, pointers to other types and
    nil pointers, a nil struct pointer included. *)
Theorem Marshal_rejects_other_shapes hooks models :
  Kind models ≠ reflect.Slice →
  (∀ m, models ≠ StructPtr (Some m)) →
  (∀ t, models ≠ TimePtr (Some t)) →
  Marshal convertToSliceInterface hooks models = Fail ErrUnexpectedType.
Proof.
  intros Hk Hs Ht. unfold Marshal.
  destruct models as [b| | | |[t|]|[m|]|]; simpl in *; try done.
  - by destruct b.
  - by destruct (Ht t).
  - by destruct (Hs m).
Qed.

(** X15.  When [Marshal] returns a payload for a slice, the conversion of
    the slice succeeded, the payload is the one [marshalMany] builds from
    its elements, and its links and meta are those of the slice type, the
    links having passed validation. *)
Theorem Marshal_slice hooks models payload :
  Kind models = reflect.Slice →
  Marshal convertToSliceInterface hooks models = Ret payload →
  ∃ m p,
    convertToSliceInterface models = Ret m
    ∧ marshalMany m = Ret p
    ∧ payload = PayloadMany p (JSONAPILinks hooks) (JSONAPIMeta hooks)
    ∧ ∀ jl, JSONAPILinks hooks = Some jl → validate jl = Ret ().
Proof.
  intros Hk H. unfold Marshal in H. rewrite Hk in H.
  apply bind_Ret in H as (m & Hm & H).
  apply bind_Ret in H as (p & Hp & H).
  apply bind_Ret in H as (links & Hl & H). injection H as <-.
  exists m, p. split_and!; [done..| |].
  - destruct (JSONAPILinks hooks) as [jl|]; [|by injection Hl as <-].
    inv_bind Hl. by injection Hl as <-.
  - intros jl Hjl. rewrite Hjl in Hl. inv_bind Hl. by destruct a.
Qed.

(** X16.  A payload [Marshal] returns for a pointer always has a root node
    and an included list: the nil-model case of the traversal is never
    reached through [Marshal]. *)
Theorem Marshal_pointer_has_data hooks models payload :
  Kind models = reflect.Ptr →
  Marshal convertToSliceInterface hooks models = Ret payload →
  ∃ node incl, payload = PayloadOne (MkOnePayload (Some node) (Some incl)).
Proof.
  intros Hk H. unfold Marshal in H. rewrite Hk in H.
  assert (∀ m, (p ← marshalOne (Some m); Ret (PayloadOne p)) = Ret payload →
               ∃ node incl,
                 payload = PayloadOne (MkOnePayload (Some node) (Some incl)))
    as Hone.
  { intros m Hm. inv_bind Hm. injection Hm as <-.
    unfold marshalOne in Ha. apply bind_Ret in Ha as ([root inc] & Hv & Ha).
    injection Ha as <-. simpl in Hv.
    apply bind_Ret in Hv as ([node inc'] & _ & Hv).
    injection Hv as <- <-. eauto. }
  destruct models as [| | | |[t|]|[m|]|]; try done; by eapply Hone.
Qed.
End Marshal_properties.

(** ** Empty relationships *)

(** X17.  A to-many relation whose slice is nil or empty is left out under
    [omitempty]; otherwise it stores an entry with an empty data list and the
    relationship links and meta, in either mode and without touching the
    registry. *)
Theorem empty_to_many_relationship visit hooks sideload tag typ s name mods
    node included :
  Split tag annotationSeperator = annotationRelation :: name :: mods →
  s = None ∨ s = Some [] →
  visitField visit hooks sideload (MkField tag typ (StructPtrSlice s))
    (node, included)
  = Ret (if relationOmitEmpty (annotationRelation :: name :: mods) then node
         else setRelationships
                (Some (<[name :=
                           RelationshipManyNode []
                             (f ← JSONAPIRelationshipLinks hooks; f name)
                             (f ← JSONAPIRelationshipMeta hooks; f name)]>
                         (default ∅ (Relationships node))))
                node,
         included).
Proof.
  intros Hs Hempty. rewrite (visitField_relation _ _ _ _ _ _ _ _ _ Hs).
  unfold visitRelation.
  change ((annotationRelation :: name :: mods) !!! 1%nat) with name.
  destruct (relationOmitEmpty _).
  - by destruct Hempty as [-> | ->].
  - destruct Hempty as [-> | ->]; simpl; destruct sideload; simpl;
      by rewrite assignRelationship_ensure.
Qed.

Lemma visitField_Relationships_nonempty visit hooks sideload f node included
    node' included' :
  visitField visit hooks sideload f (node, included) = Ret (node', included') →
  Relationships node ≠ Some ∅ → Relationships node' ≠ Some ∅.
Proof.
  intros H Hne. pose proof H as Hframe.
  apply visitField_frame in Hframe as (_ & _ & _ & _ & _ & Hr).
  destruct f as [tag typ fv]. unfold hasRole, isTagged in *. simpl in *.
  assert (annotationPrimary ≠ annotationRelation) by done.
  assert (annotationClientID ≠ annotationRelation) by done.
  assert (annotationAttribute ≠ annotationRelation) by done.
  apply visitField_Ret in H as [[-> [= -> ->]]|[Hn H]]; [done|].
  destruct H as [[Hrole _]|[[Hrole _]|[[Hrole _]|[Hrole Hv]]]];
    try (rewrite (proj1 (Hr ltac:(intros [_ ?]; congruence))); done).
  apply visitRelation_Ret in Hv. inversion Hv; subst; [done|]. simpl.
  intros [= Hm]. by apply insert_non_empty in Hm.
Qed.

(** X18.  The relationship map of a returned node is never empty: it is
    created only when an entry is about to be stored.  A model without
    relation fields has no relationship map and leaves the registry as it
    found it. *)
Theorem relationships_map_never_empty m included sideload node included' :
  visitStruct m included sideload = Ret (node, included') →
  Relationships node ≠ Some ∅
  ∧ (Forall (λ f, ¬ hasRole annotationRelation f) (fieldsOf m) →
     Relationships node = None ∧ included' = included).
Proof.
  destruct m as [hooks fields]. intros H.
  apply visitStruct_finish in H as (node0 & Hloop & Ha).
  apply finishNode_Ret in Ha as [-> _]. simpl. split.
  - assert (∀ n inc,
              forEach (visitField visitStruct hooks sideload) fields (n, inc)
              = Ret (node0, included') →
              Relationships n ≠ Some ∅ → Relationships node0 ≠ Some ∅) as Hinv.
    { clear Hloop. induction fields as [|f fields IH]; intros n inc H;
        simpl in H.
      - by injection H as <- <-.
      - apply bind_Ret in H as ([n1 inc1] & Hf & H). intros Hn.
        eapply IH; [exact H|]. by eapply visitField_Relationships_nonempty. }
    by eapply Hinv.
  - intros HF. apply forEach_frame in Hloop as (_ & _ & _ & _ & Hr).
    by apply Hr.
Qed.
